(** * OTCBot: the options-strategy pricing pipeline of [MarkPx.py]

    A shallow embedding of [parse_leg_string], [get_instrument_mark_price_async]
    and [mark_px], and the properties of the pricing pipeline proved on it.

    Conventions of the embedding.
    - A Python [str] is a [string] of ASCII code points (the bot's command
      language); Unicode case mapping, digits and spaces beyond ASCII are
      outside the model.
    - A Python [float] is a binary64 value ([PrimFloat.float]); [int] is [Z].
    - The prices of a quote are floats or null, as the annotation of the
      fetcher declares ([tuple[str, float | None, float | None]]); a payload
      whose prices are JSON values of another type (an integer, a string) is
      outside the model.
    - The dictionary [price_map] is a [gmap] keyed by instrument name.
    - The network is an oracle that answers the request of the i-th task;
      [asyncio.gather] returns the answers in task order, whatever the order
      in which the requests complete.
    - Logging is not modelled.  Calls to the parser and to the quote fetcher
      are recorded in a trace, so that "no fetch was made" can be stated. *)

From Stdlib Require Import ZArith String Ascii List DecimalString Lia.
From Stdlib Require Import PrimFloat SpecFloat FloatOps.
From stdpp Require Import gmap strings.

Set Warnings "-inexact-float".

Open Scope string_scope.
Open Scope Z_scope.

(** ** Python string primitives *)

Module PyStr.

(** [str.isspace] on ASCII: TAB, LF, VT, FF, CR, FS, GS, RS, US and SPACE. *)
Definition is_space (c : ascii) : bool :=
  let n := N_of_ascii c in
  (((9 <=? n) && (n <=? 13)) || ((28 <=? n) && (n <=? 32)))%N.

Definition is_digit (c : ascii) : bool :=
  let n := N_of_ascii c in ((48 <=? n) && (n <=? 57))%N.

Definition is_lower (c : ascii) : bool :=
  let n := N_of_ascii c in ((97 <=? n) && (n <=? 122))%N.

Definition upper_char (c : ascii) : ascii :=
  if is_lower c then ascii_of_N (N_of_ascii c - 32) else c.

(** [s.upper()] *)
Fixpoint upper (s : string) : string :=
  match s with
  | EmptyString => EmptyString
  | String c r => String (upper_char c) (upper r)
  end.

Fixpoint lstrip (s : string) : string :=
  match s with
  | EmptyString => EmptyString
  | String c r => if is_space c then lstrip r else s
  end.

Fixpoint rstrip (s : string) : string :=
  match s with
  | EmptyString => EmptyString
  | String c r =>
      match rstrip r with
      | EmptyString => if is_space c then EmptyString else String c EmptyString
      | r' => String c r'
      end
  end.

(** [s.strip()] *)
Definition strip (s : string) : string := rstrip (lstrip s).

(** [s.split()]: the maximal runs of characters that are not spaces. *)
Fixpoint split_ws (s : string) : list string :=
  match s with
  | EmptyString => []
  | String c r =>
      if is_space c then split_ws r
      else match r with
           | EmptyString => [String c EmptyString]
           | String c' _ =>
               if is_space c' then String c EmptyString :: split_ws r
               else match split_ws r with
                    | [] => [String c EmptyString]
                    | w :: ws => String c w :: ws
                    end
           end
  end.

(** [s.split(sep)] for a one-character separator: empty fields are kept. *)
Fixpoint split_on (sep : ascii) (s : string) : list string :=
  match s with
  | EmptyString => [EmptyString]
  | String c r =>
      if Ascii.eqb c sep then EmptyString :: split_on sep r
      else match split_on sep r with
           | [] => [String c EmptyString]
           | w :: ws => String c w :: ws
           end
  end.

(** [sep.join(l)] *)
Definition join (sep : string) (l : list string) : string := String.concat sep l.

(** [s.startswith(p)] *)
Definition startswith (p s : string) : bool := String.prefix p s.

(** [s.count(c)] for a one-character needle *)
Fixpoint count_char (c : ascii) (s : string) : nat :=
  match s with
  | EmptyString => O
  | String c' r => if Ascii.eqb c' c then S (count_char c r) else count_char c r
  end.

Fixpoint all_digits (s : string) : bool :=
  match s with
  | EmptyString => true
  | String c r => is_digit c && all_digits r
  end.

(** [s.isdigit()]: at least one character, and every character a digit. *)
Definition isdigit (s : string) : bool :=
  match s with
  | EmptyString => false
  | _ => all_digits s
  end.

(** [s[1:]] *)
Definition tail (s : string) : string :=
  match s with
  | EmptyString => EmptyString
  | String _ r => r
  end.

(** [f"{s:<w}"]: padded with spaces on the right up to width [w]. *)
Definition ljust (w : nat) (s : string) : string :=
  s ++ string_of_list_ascii (repeat " "%char (w - String.length s)).

(** [c * n] *)
Definition times (c : ascii) (n : nat) : string :=
  string_of_list_ascii (repeat c n).

(** [str(n)] for an integer *)
Definition str_of_int (n : Z) : string :=
  match n with
  | Z0 => "0"
  | Zpos p => NilZero.string_of_uint (Pos.to_uint p)
  | Zneg p => "-" ++ NilZero.string_of_uint (Pos.to_uint p)
  end.

Definition digit_value (c : ascii) : Z := Z.of_N (N_of_ascii c) - 48.

(** The value of a run of decimal digits, most significant first. *)
Fixpoint digits_value (acc : Z) (s : string) : Z :=
  match s with
  | EmptyString => acc
  | String c r => digits_value (10 * acc + digit_value c) r
  end.

(** The digits of an [int] literal: digits, with single underscores allowed
    between two digits.  [prev] tells whether the previous character was a
    digit; the result is the value and the number of digits read. *)
Fixpoint int_digits (prev : bool) (acc : Z) (n : nat) (s : string) : option (Z * nat) :=
  match s with
  | EmptyString => if prev then Some (acc, n) else None
  | String c r =>
      if is_digit c then int_digits true (10 * acc + digit_value c) (S n) r
      else if Ascii.eqb c "_" then (if prev then int_digits false acc n r else None)
      else None
  end.

(** [sys.int_info.default_max_str_digits] *)
Definition int_max_str_digits : nat := 4300.

(** [int(s)]: [None] stands for [ValueError].  Surrounding spaces are
    dropped, one sign is allowed, and a literal of more than
    [int_max_str_digits] digits is refused. *)
Definition int_of_str (s : string) : option Z :=
  let body (neg : bool) (t : string) : option Z :=
    match int_digits false 0 O t with
    | Some (v, n) =>
        if (n <=? int_max_str_digits)%nat then Some (if neg then - v else v) else None
    | None => None
    end in
  match strip s with
  | String "+" t => body false t
  | String "-" t => body true t
  | t => body false t
  end.

End PyStr.

Import PyStr.

(** ** Python float primitives (binary64) *)

Module PyFloat.

(** The conversion of an [int] operand to [float]: round to nearest, ties
    to even; [None] stands for [OverflowError] (the rounded value would
    exceed the largest double). *)
Definition float_of_int (n : Z) : option float :=
  match binary_normalize prec emax n 0 false with
  | S754_infinity _ => None
  | sf => Some (SF2Prim sf)
  end.

(** [x * n] for a float [x] and an int [n] *)
Definition mul_int (x : float) (n : Z) : option float :=
  match float_of_int n with
  | Some y => Some (PrimFloat.mul x y)
  | None => None
  end.

(** [n / d] rounded to the nearest integer, ties to even ([0 <= n], [0 < d]) *)
Definition div_half_even (n d : Z) : Z :=
  let q := n / d in
  match 2 * (n mod d) ?= d with
  | Lt => q
  | Gt => q + 1
  | Eq => if Z.even q then q else q + 1
  end.

(** [|x| * 10^k] rounded to an integer, for the finite value [m * 2^e] *)
Definition scaled (k : Z) (m : positive) (e : Z) : Z :=
  if 0 <=? e then Zpos m * 2 ^ e * 10 ^ k
  else div_half_even (Zpos m * 10 ^ k) (2 ^ (- e)).

Fixpoint zeros (n : nat) : string :=
  match n with
  | O => EmptyString
  | S n' => String "0" (zeros n')
  end.

(** Decimal digits of [n], padded with zeros on the left up to width [w] *)
Definition zfill (w : nat) (n : Z) : string :=
  let d := str_of_int n in zeros (w - String.length d) ++ d.

(** The thousands separator of the [,] format option: a comma before every
    group of three digits, counted from the right. *)
Fixpoint group3 (s : string) : string :=
  match s with
  | EmptyString => EmptyString
  | String c r =>
      if (0 <? String.length r)%nat && (Nat.modulo (String.length r) 3 =? 0)%nat
      then String c (String "," (group3 r))
      else String c (group3 r)
  end.

Definition sign_str (s : bool) : string := if s then "-" else "".

(** [f"{x:.4f}"] *)
Definition fmt_4f (x : float) : string :=
  match Prim2SF x with
  | S754_nan => "nan"
  | S754_infinity s => sign_str s ++ "inf"
  | S754_zero s => sign_str s ++ "0.0000"
  | S754_finite s m e =>
      let n := scaled 4 m e in
      sign_str s ++ str_of_int (n / 10000) ++ "." ++ zfill 4 (n mod 10000)
  end.

(** [f"{x:,.0f}"] *)
Definition fmt_grouped_0f (x : float) : string :=
  match Prim2SF x with
  | S754_nan => "nan"
  | S754_infinity s => sign_str s ++ "inf"
  | S754_zero s => sign_str s ++ "0"
  | S754_finite s m e => sign_str s ++ group3 (str_of_int (scaled 0 m e))
  end.

End PyFloat.

Import PyFloat.

(** ** The leg parser: [parse_leg_string] *)

Inductive Side := buy | sell.

(** [leg['side'].upper()] *)
Definition side_upper (s : Side) : string :=
  match s with buy => "BUY" | sell => "SELL" end.

(** The dictionary [{'instrument': .., 'side': .., 'quantity': ..}] *)
Record Leg := mkLeg { instrument : string; side : Side; quantity : Z }.

(** The three shapes of the instrument tokens: one token taken as it is,
    four or three tokens joined with hyphens; [None] is the format error. *)
Definition join_instrument (instrument_parts : list string) : option string :=
  match instrument_parts with
  | [i] => Some i
  | [_; _; _; _] => Some (join "-" instrument_parts)
  | [_; _; _] => Some (join "-" instrument_parts)
  | _ => None
  end.

(** The quantity token with its sign, a missing sign being read as [+] when
    the token is numeric and the instrument has two hyphens or more. *)
Definition fix_sign (qty_str instrument : string) : option string :=
  if startswith "+" qty_str || startswith "-" qty_str then Some qty_str
  else if isdigit qty_str && (2 <=? count_char "-" instrument)%nat
       then Some ("+" ++ qty_str)
       else None.

Definition known_currency (instrument : string) : bool :=
  startswith "BTC-" instrument || startswith "ETH-" instrument
  || startswith "USDC-" instrument.

Definition default_currency (instrument : string) : string :=
  if known_currency instrument then instrument else "BTC-" ++ instrument.

(** The abbreviated BTC strike: [95] stands for [95000]. *)
Definition expand_strike (instrument : string) : string :=
  if startswith "BTC-" instrument then
    match split_on "-" instrument with
    | [p0; p1; strike_str; p3] =>
        if isdigit strike_str && (String.length strike_str <=? 3)%nat
        then join "-" [p0; p1; strike_str ++ "000"; p3]
        else instrument
    | _ => instrument
    end
  else instrument.

Definition parse_leg_string (leg_string : string) : option Leg :=
  match split_ws (upper (strip leg_string)) with
  | [] => None
  | [_] => None
  | qty_str :: instrument_parts =>
      match join_instrument instrument_parts with
      | None => None
      | Some instrument =>
          match fix_sign qty_str instrument with
          | None => None
          | Some qty_str =>
              let instrument := expand_strike (default_currency instrument) in
              let side := if startswith "+" qty_str then buy else sell in
              match int_of_str (tail qty_str) with
              | None => None
              | Some quantity =>
                  if quantity <=? 0 then None
                  else Some (mkLeg (upper instrument) side quantity)
              end
          end
      end
  end.

(** ** The quote fetcher: [get_instrument_mark_price_async] *)

(** What the ticker endpoint answers to one request. *)
Inductive response :=
| request_failed
    (* an exception: network error, timeout, status outside 2xx, bad body *)
| mark_price_missing
    (* a payload without [result] or without [result.mark_price] *)
| ticker (mark_price index_price : option float).
    (* [result.mark_price] and [result.get('index_price')], each a float;
       [None] is null (or, for the index price, a missing key) *)

(** [(instrument_name, mark_price, index_price)] *)
Definition quote : Type := string * option float * option float.

Definition get_instrument_mark_price_async
    (r : response) (instrument_name : string) : quote :=
  match r with
  | ticker mark_price index_price => (instrument_name, mark_price, index_price)
  | mark_price_missing => (instrument_name, None, None)
  | request_failed => (instrument_name, None, None)
  end.

(** ** The strategy pricer: [mark_px] *)

(** The answer the i-th task of a request gets for its instrument. *)
Definition network : Type := nat -> string -> response.

Inductive event :=
| parse_call (leg_str : string)
| fetch_call (instrument_name : string).

Inductive outcome :=
| returned (text : string)
| raised_OverflowError.

Definition nl : string := String (ascii_of_nat 10) EmptyString.

(** Step 1: the legs are parsed in order, up to the first one refused. *)
Fixpoint parse_legs (strategy_legs_input : list string)
  : list event * (string + list Leg) :=
  match strategy_legs_input with
  | [] => ([], inr [])
  | leg_str :: rest =>
      match parse_leg_string leg_str with
      | None => ([parse_call leg_str], inl leg_str)
      | Some parsed_leg =>
          let '(calls, r) := parse_legs rest in
          (parse_call leg_str :: calls,
           match r with
           | inl bad => inl bad
           | inr strategy_legs => inr (parsed_leg :: strategy_legs)
           end)
      end
  end.

(** [leg['instrument'].split('-')[0]] *)
Definition underlying (leg : Leg) : string :=
  hd EmptyString (split_on "-" (instrument leg)).

(** Step 2: [first_underlying] starts as [None]; a value that is [None] or
    empty is replaced by the current leg's underlying. *)
Fixpoint check_underlying (first_underlying : option string) (legs : list Leg)
  : (string * string) + option string :=
  match legs with
  | [] => inr first_underlying
  | leg :: rest =>
      let current_underlying := underlying leg in
      match first_underlying with
      | Some (String _ _ as first) =>
          if String.eqb first current_underlying
          then check_underlying first_underlying rest
          else inl (first, current_underlying)
      | _ => check_underlying (Some current_underlying) rest
      end
  end.

(** Step 3: one task per leg, the results in task order. *)
Fixpoint gather (net : network) (i : nat) (legs : list Leg) : list quote :=
  match legs with
  | [] => []
  | leg :: rest =>
      get_instrument_mark_price_async (net i (instrument leg)) (instrument leg)
      :: gather net (S i) rest
  end.

(** Step 4, first loop: the price map and the index price. *)
Fixpoint collect (i : nat) (results : list quote)
    (price_map : gmap string (option float)) (index_price : option float)
  : gmap string (option float) * option float :=
  match results with
  | [] => (price_map, index_price)
  | (instrument, mark_price, idx_px) :: rest =>
      collect (S i) rest (<[instrument := mark_price]> price_map)
        (match idx_px with
         | Some x => if (i =? 0)%nat then Some x else index_price
         | None => index_price
         end)
  end.

(** [price_map.get(instrument)] *)
Definition price_map_get (price_map : gmap string (option float))
    (instrument : string) : option float :=
  match price_map !! instrument with
  | Some mark_price => mark_price
  | None => None
  end.

Definition priced_line (leg : Leg) (mark_price : float) : string :=
  " " ++ ljust 4 (side_upper (side leg)) ++ " " ++ str_of_int (quantity leg)
  ++ "x " ++ ljust 22 (instrument leg) ++ ": " ++ fmt_4f mark_price.

Definition error_line (leg : Leg) : string :=
  " " ++ ljust 4 (side_upper (side leg)) ++ " " ++ str_of_int (quantity leg)
  ++ "x " ++ ljust 22 (instrument leg) ++ ": ERROR (Price not found)".

(** Step 4, second loop; [None] is the [OverflowError] of [float * int]. *)
Fixpoint price_legs (price_map : gmap string (option float)) (legs : list Leg)
    (total_strategy_mark_price : float) (price_details : list string)
    (all_legs_fetched_successfully : bool)
  : option (float * list string * bool) :=
  match legs with
  | [] => Some (total_strategy_mark_price, price_details,
                all_legs_fetched_successfully)
  | leg :: rest =>
      match price_map_get price_map (instrument leg) with
      | Some mark_price =>
          match mul_int mark_price (quantity leg) with
          | None => None
          | Some leg_price =>
              let leg_price :=
                match side leg with
                | sell => PrimFloat.opp leg_price
                | buy => leg_price
                end in
              price_legs price_map rest
                (PrimFloat.add total_strategy_mark_price leg_price)
                (price_details ++ [priced_line leg mark_price])%list
                all_legs_fetched_successfully
          end
      | None =>
          price_legs price_map rest total_strategy_mark_price
            (price_details ++ [error_line leg])%list false
      end
  end.

(** [f"{first_underlying}"] *)
Definition show_underlying (first_underlying : option string) : string :=
  match first_underlying with Some c => c | None => "None" end.

Definition net_line (total : float) (first_underlying : option string)
    (index_price : option float) : string :=
  "  Net Combo Mark: " ++ fmt_4f total ++ " " ++ show_underlying first_underlying
  ++ nl ++ "  Index Ref: $"
  ++ match index_price with Some x => fmt_grouped_0f x | None => "N/A" end.

Definition net_unavailable : string :=
  "  Net Combo Mark: N/A (Could not fetch price for all legs)".

Definition header : string := "Combo Mark Price per unit" ++ nl.

Definition separator : string := nl ++ times "-" 40.

(** Step 5: the report, [output_lines] joined with newlines. *)
Definition report (price_details : list string) (last_line : string) : string :=
  join nl (header :: (price_details ++ [separator; last_line])%list).

Definition invalid_leg_error (leg_str : string) : string :=
  "Error: Invalid leg format: '" ++ leg_str ++ "'".

Definition no_legs_error : string := "Error: No valid strategy legs provided.".

Definition currency_error (first_underlying current_underlying : string) : string :=
  "Error: All legs must have the same underlying currency. Found '"
  ++ first_underlying ++ "' and '" ++ current_underlying ++ "'.".

(** The calls made, in order, and what the coroutine ends with. *)
Definition mark_px (net : network) (strategy_legs_input : list string)
  : list event * outcome :=
  match parse_legs strategy_legs_input with
  | (calls, inl leg_str) => (calls, returned (invalid_leg_error leg_str))
  | (calls, inr []) => (calls, returned no_legs_error)
  | (calls, inr strategy_legs) =>
      match check_underlying None strategy_legs with
      | inl (first, current) => (calls, returned (currency_error first current))
      | inr first_underlying =>
          let results := gather net O strategy_legs in
          let calls :=
            (calls ++ map (fun l => fetch_call (instrument l)) strategy_legs)%list in
          let '(price_map, index_price) := collect O results ∅ None in
          match price_legs price_map strategy_legs 0%float [] true with
          | None => (calls, raised_OverflowError)
          | Some (total, price_details, true) =>
              (calls, returned (report price_details
                                  (net_line total first_underlying index_price)))
          | Some (_, price_details, false) =>
              (calls, returned (report price_details net_unavailable))
          end
      end
  end.

(** ** The caller in [OTCBot.py]: [price_get_legs] *)

(** The states of the price conversation.  [None] below stands for the
    handler ending with an exception. *)
Inductive conversation := GETTING_LEGS | END.

(** The truth value of a string: not empty. *)
Definition nonempty (s : string) : bool :=
  match s with EmptyString => false | String _ _ => true end.

(** [[line.strip() for line in user_input.split('\n') if line.strip()]] *)
Definition strategy_lines (user_input : string) : list string :=
  map strip
    (List.filter (fun line => nonempty (strip line))
       (split_on (ascii_of_nat 10) user_input)).

Definition no_legs_reply : string :=
  "You didn't provide any legs. Please try again or use /cancel.".

Definition calculating_reply : string := "Calculating, please wait...".

(** What handling one message does: the calls of the pricer, the texts
    passed to [reply_text], in order, and the next state of the conversation. *)
Record handled := mkHandled {
  calls : list event;
  replies : list string;
  next_state : option conversation
}.

Definition price_get_legs (net : network) (user_input : string) : handled :=
  match strategy_lines user_input with
  | [] => mkHandled [] [no_legs_reply] (Some GETTING_LEGS)
  | strategy_legs_input =>
      match mark_px net strategy_legs_input with
      | (calls, returned result_string) =>
          mkHandled calls [calculating_reply; result_string] (Some END)
      | (calls, raised_OverflowError) =>
          mkHandled calls [calculating_reply] None
      end
  end.

(** ** Notions used to state the properties *)

Definition quote_name (q : quote) : string := q.1.1.
Definition quote_mark (q : quote) : option float := q.1.2.
Definition quote_index (q : quote) : option float := q.2.

(** Every input string is accepted, and these are the legs, in order. *)
Definition parses_to (inputs : list string) (legs : list Leg) : Prop :=
  Forall2 (fun s leg => parse_leg_string s = Some leg) inputs legs.

(** The result of the last task, in task order, that fetched [ins]. *)
Fixpoint last_fetch (ins : string) (results : list quote) : option quote :=
  match results with
  | [] => None
  | q :: rest =>
      match last_fetch ins rest with
      | Some q' => Some q'
      | None => if String.eqb (quote_name q) ins then Some q else None
      end
  end.

(** The mark price of the last fetch of the leg's instrument. *)
Definition resolved_mark (results : list quote) (leg : Leg) : option float :=
  match last_fetch (instrument leg) results with
  | Some q => quote_mark q
  | None => None
  end.

Definition is_priced (mark_of : Leg -> option float) (leg : Leg) : bool :=
  match mark_of leg with Some _ => true | None => false end.

(** The line of a leg: its price, or the error marker. *)
Definition shown_line (mark_of : Leg -> option float) (leg : Leg) : string :=
  match mark_of leg with
  | Some mark_price => priced_line leg mark_price
  | None => error_line leg
  end.

(** [mark_price * quantity], negated for a sell; computed on [x], the product. *)
Definition signed (leg : Leg) (x : float) : float :=
  match side leg with sell => PrimFloat.opp x | buy => x end.

(** The running total over the priced legs, in order, from [total]; [None]
    when a product [mark_price * quantity] overflows. *)
Fixpoint accumulate (mark_of : Leg -> option float) (legs : list Leg)
    (total : float) : option float :=
  match legs with
  | [] => Some total
  | leg :: rest =>
      match mark_of leg with
      | Some mark_price =>
          match mul_int mark_price (quantity leg) with
          | Some x => accumulate mark_of rest (PrimFloat.add total (signed leg x))
          | None => None
          end
      | None => accumulate mark_of rest total
      end
  end.

(** The sum, in order and from [total], of [mark_price * quantity] negated for
    the sells, over legs paired with their mark prices. *)
Fixpoint signed_sum (total : float) (priced : list (Leg * float)) : option float :=
  match priced with
  | [] => Some total
  | (leg, mark_price) :: rest =>
      match float_of_int (quantity leg) with
      | Some q =>
          let product := PrimFloat.mul mark_price q in
          signed_sum
            (PrimFloat.add total
               match side leg with
               | sell => PrimFloat.opp product
               | buy => product
               end)
            rest
      | None => None
      end
  end.

(** The quantity converts to a float: [float * int] raises nothing. *)
Definition fits (leg : Leg) : bool :=
  match float_of_int (quantity leg) with Some _ => true | None => false end.

(** The index price of the first task's result. *)
Definition first_index (results : list quote) : option float :=
  match results with
  | q :: _ => quote_index q
  | [] => None
  end.

Definition fetch_calls (legs : list Leg) : list event :=
  map (fun leg => fetch_call (instrument leg)) legs.

(** The legs after the first name the first leg's underlying. *)
Definition same_underlying (first : Leg) (rest : list Leg) : Prop :=
  Forall (fun leg => underlying leg = underlying first) rest.

(** The result of the k-th task, the one fetching the k-th leg. *)
Definition own_quote (net : network) (k : nat) (leg : Leg) : quote :=
  get_instrument_mark_price_async (net k (instrument leg)) (instrument leg).

(** [needle in hay] *)
Fixpoint in_str (needle hay : string) : bool :=
  startswith needle hay
  || match hay with
     | EmptyString => false
     | String _ r => in_str needle r
     end.

(** ** Facts about the string primitives *)

(** A string without lower-case letters: [s.upper() == s]. *)
Definition uppercase (s : string) : Prop := upper s = s.

Section StringFacts.

Lemma upper_char_idem c : upper_char (upper_char c) = upper_char c.
Proof. destruct c as [[] [] [] [] [] [] [] []]; reflexivity. Qed.

Lemma upper_idem s : upper (upper s) = upper s.
Proof. induction s as [|c r IH]; simpl; [done|]. by rewrite upper_char_idem, IH. Qed.

Lemma upper_app a b : upper (a ++ b) = upper a ++ upper b.
Proof. induction a as [|c r IH]; simpl; [done|]. by rewrite IH. Qed.

Lemma uppercase_upper s : uppercase (upper s).
Proof. apply upper_idem. Qed.

Lemma uppercase_cons c r : uppercase (String c r) <-> upper_char c = c /\ uppercase r.
Proof.
  unfold uppercase; simpl; split.
  - intros H; by injection H.
  - intros [-> ->]; done.
Qed.

Lemma uppercase_app a b : uppercase a -> uppercase b -> uppercase (a ++ b).
Proof. unfold uppercase; intros Ha Hb. by rewrite upper_app, Ha, Hb. Qed.

Lemma uppercase_split_ws s : uppercase s -> Forall uppercase (split_ws s).
Proof.
  induction s as [|c r IH]; simpl; intros H; [constructor|].
  apply uppercase_cons in H as [Hc Hr]. specialize (IH Hr).
  assert (Hone : uppercase (String c EmptyString)) by (by apply uppercase_cons).
  destruct (is_space c); [done|].
  destruct r as [|c' r']; [by repeat constructor|].
  destruct (is_space c'); [by constructor|].
  destruct (split_ws (String c' r')) as [|w ws]; [by repeat constructor|].
  inversion IH; subst. constructor; [by apply uppercase_cons|done].
Qed.

Lemma uppercase_split_on sep s : uppercase s -> Forall uppercase (split_on sep s).
Proof.
  induction s as [|c r IH]; simpl; intros H; [by repeat constructor|].
  apply uppercase_cons in H as [Hc Hr]. specialize (IH Hr).
  destruct (Ascii.eqb c sep); [by constructor|].
  destruct (split_on sep r) as [|w ws]; [by repeat constructor; apply uppercase_cons|].
  inversion IH; subst. constructor; [by apply uppercase_cons|done].
Qed.

Lemma uppercase_join sep l :
  uppercase sep -> Forall uppercase l -> uppercase (join sep l).
Proof.
  intros Hsep; induction 1 as [|x l Hx Hl IH]; [done|].
  unfold join in *; simpl. destruct l; [done|].
  by repeat apply uppercase_app.
Qed.

Lemma startswith_cons a p b s :
  startswith (String a p) (String b s)
  = if ascii_dec a b then startswith p s else false.
Proof. reflexivity. Qed.

Lemma startswith_app p r : startswith p (p ++ r) = true.
Proof.
  unfold startswith; induction p as [|c p IH]; simpl; [by destruct r|].
  by destruct (ascii_dec c c).
Qed.

Lemma startswith_inv p s : startswith p s = true -> exists r, s = p ++ r.
Proof.
  unfold startswith; revert s; induction p as [|c p IH]; intros s H.
  - by exists s.
  - destruct s as [|c' s]; simpl in H; [done|].
    destruct (ascii_dec c c') as [->|]; [|done].
    destruct (IH _ H) as [r ->]. by exists r.
Qed.

Lemma startswith_upper p s :
  uppercase p -> startswith p s = true -> startswith p (upper s) = true.
Proof.
  intros Hp H. destruct (startswith_inv _ _ H) as [r ->].
  rewrite upper_app, Hp. apply startswith_app.
Qed.

(** The inverse of [split_on]: joining the fields gives the string back. *)
Lemma join_split_on sep s : join (String sep EmptyString) (split_on sep s) = s.
Proof.
  unfold join; induction s as [|c r IH]; simpl; [done|].
  destruct (Ascii.eqb_spec c sep) as [->|Hne].
  - simpl. destruct (split_on sep r) eqn:E; [by destruct r; simpl in E; repeat case_match|].
    by rewrite <- IH.
  - destruct (split_on sep r) as [|w ws] eqn:E.
    + by destruct r; simpl in E; repeat case_match.
    + simpl in *. destruct ws; simpl in *; by rewrite <- IH.
Qed.

End StringFacts.


(** ** Facts about the leg parser *)

Lemma isdigit_unsigned q :
  isdigit q = true -> startswith "+" q = false /\ startswith "-" q = false.
Proof.
  destruct q as [|c r]; [done|]. unfold isdigit.
  intros H. simpl in H. apply andb_prop in H as [Hc _].
  rewrite !startswith_cons.
  split; destruct (ascii_dec _ c) as [<-|]; done.
Qed.

Lemma known_currency_default ins : known_currency (default_currency ins) = true.
Proof.
  unfold default_currency. destruct (known_currency ins) eqn:E; [done|].
  unfold known_currency. by rewrite startswith_app.
Qed.

Lemma split_on_BTC r : split_on "-" ("BTC-" ++ r) = "BTC" :: split_on "-" r.
Proof. reflexivity. Qed.

Lemma known_currency_expand ins :
  known_currency ins = true -> known_currency (expand_strike ins) = true.
Proof.
  intros H. unfold expand_strike.
  destruct (startswith "BTC-" ins) eqn:E; [|done].
  destruct (startswith_inv _ _ E) as [r ->].
  rewrite split_on_BTC.
  destruct (split_on "-" r) as [|p1 [|k [|p3 [|]]]]; try done.
  destruct (isdigit k && _); [|done].
  replace (join "-" ["BTC"; p1; k ++ "000"; p3])
    with ("BTC-" ++ join "-" [p1; k ++ "000"; p3]) by reflexivity.
  unfold known_currency. by rewrite startswith_app.
Qed.

Lemma known_currency_upper ins :
  known_currency ins = true -> known_currency (upper ins) = true.
Proof.
  unfold known_currency. intros H.
  apply orb_prop in H as [H|H]; [apply orb_prop in H as [H|H]|].
  - by rewrite (startswith_upper "BTC-" ins).
  - rewrite (startswith_upper "ETH-" ins) by done. by rewrite orb_true_r.
  - rewrite (startswith_upper "USDC-" ins) by done. by rewrite orb_true_r.
Qed.

Lemma uppercase_default ins : uppercase ins -> uppercase (default_currency ins).
Proof.
  intros H. unfold default_currency. destruct (known_currency ins); [done|].
  by apply uppercase_app.
Qed.

Lemma uppercase_expand ins : uppercase ins -> uppercase (expand_strike ins).
Proof.
  intros H. unfold expand_strike.
  destruct (startswith "BTC-" ins); [|done].
  pose proof (uppercase_split_on "-" ins H) as HF.
  destruct (split_on "-" ins) as [|p0 [|p1 [|k [|p3 [|]]]]]; try done.
  destruct (isdigit k && _); [|done].
  apply Forall_cons in HF as [U0 HF]. apply Forall_cons in HF as [U1 HF].
  apply Forall_cons in HF as [U2 HF]. apply Forall_cons in HF as [U3 _].
  apply uppercase_join; [done|].
  repeat constructor; try done. by apply uppercase_app.
Qed.

Lemma uppercase_join_instrument toks ins :
  Forall uppercase toks -> join_instrument toks = Some ins -> uppercase ins.
Proof.
  intros HF H.
  destruct toks as [|t0 [|t1 [|t2 [|t3 [|]]]]]; simpl in H; simplify_eq.
  - by inversion HF.
  - by apply (uppercase_join "-" [t0; t1; t2]).
  - by apply (uppercase_join "-" [t0; t1; t2; t3]).
Qed.

(** What an accepted input was turned into. *)
Lemma parse_leg_string_inv s leg :
  parse_leg_string s = Some leg ->
  exists ins, instrument leg = upper (expand_strike (default_currency ins))
              /\ 0 < quantity leg.
Proof.
  unfold parse_leg_string. intros H.
  repeat case_match; simplify_eq; (eexists; split; [done|]); simpl; lia.
Qed.

Lemma parsed_known_currency s leg :
  parse_leg_string s = Some leg -> known_currency (instrument leg) = true.
Proof.
  intros H. destruct (parse_leg_string_inv _ _ H) as (ins & -> & _).
  apply known_currency_upper, known_currency_expand, known_currency_default.
Qed.

Lemma underlying_of_known leg :
  known_currency (instrument leg) = true ->
  underlying leg = "BTC" \/ underlying leg = "ETH" \/ underlying leg = "USDC".
Proof.
  unfold known_currency, underlying. intros H.
  apply orb_prop in H as [H|H]; [apply orb_prop in H as [H|H]|];
    destruct (startswith_inv _ _ H) as [r ->]; simpl;
    destruct (split_on "-" r); auto.
Qed.

Lemma parsed_underlying s leg :
  parse_leg_string s = Some leg ->
  underlying leg = "BTC" \/ underlying leg = "ETH" \/ underlying leg = "USDC".
Proof. intros H. by eapply underlying_of_known, parsed_known_currency. Qed.

(** ** Facts about the loops of [mark_px] *)

Lemma parse_legs_all inputs legs :
  parses_to inputs legs -> parse_legs inputs = (map parse_call inputs, inr legs).
Proof.
  induction 1 as [|s leg inputs legs Hs _ IH]; simpl; [done|].
  by rewrite Hs, IH.
Qed.

Lemma parse_legs_first_bad pre bad post :
  Forall (fun s => parse_leg_string s <> None) pre ->
  parse_leg_string bad = None ->
  parse_legs (pre ++ bad :: post)%list
  = (map parse_call (pre ++ [bad])%list, inl bad).
Proof.
  intros Hpre Hbad. induction Hpre as [|s pre Hs _ IH]; simpl.
  - by rewrite Hbad.
  - destruct (parse_leg_string s); [|done]. by rewrite IH.
Qed.

Lemma check_underlying_same cur legs :
  cur <> EmptyString ->
  Forall (fun leg => underlying leg = cur) legs ->
  check_underlying (Some cur) legs = inr (Some cur).
Proof.
  intros Hne. induction 1 as [|leg legs Hleg _ IH]; simpl; [done|].
  destruct cur as [|c cur]; [done|]. by rewrite Hleg, String.eqb_refl.
Qed.

Lemma check_underlying_differs cur pre bad post :
  cur <> EmptyString ->
  Forall (fun leg => underlying leg = cur) pre ->
  underlying bad <> cur ->
  check_underlying (Some cur) (pre ++ bad :: post)%list = inl (cur, underlying bad).
Proof.
  intros Hne Hpre Hbad. induction Hpre as [|leg pre Hleg _ IH]; simpl.
  - destruct cur as [|c cur]; [done|].
    destruct (String.eqb_spec (String c cur) (underlying bad)); [|done].
    by destruct Hbad.
  - destruct cur as [|c cur]; [done|]. by rewrite Hleg, String.eqb_refl.
Qed.

Lemma gather_length net i legs : length (gather net i legs) = length legs.
Proof. revert i; induction legs as [|leg legs IH]; intros i; simpl; [done|]. by rewrite IH. Qed.

Lemma gather_lookup net i legs k :
  gather net i legs !! k
  = (fun leg => get_instrument_mark_price_async
                  (net (i + k)%nat (instrument leg)) (instrument leg))
      <$> legs !! k.
Proof.
  revert i k; induction legs as [|leg legs IH]; intros i k; [by destruct k|].
  destruct k as [|k]; simpl.
  - by rewrite Nat.add_0_r.
  - rewrite IH. by replace (S i + k)%nat with (i + S k)%nat by lia.
Qed.

Lemma quote_name_fetch r ins : quote_name (get_instrument_mark_price_async r ins) = ins.
Proof. by destruct r. Qed.

Lemma price_map_get_insert (m : gmap string (option float)) k v ins :
  price_map_get (<[k := v]> m) ins
  = if String.eqb k ins then v else price_map_get m ins.
Proof.
  unfold price_map_get. destruct (String.eqb_spec k ins) as [->|Hne].
  - by rewrite lookup_insert_eq.
  - by rewrite lookup_insert_ne.
Qed.

(** The price map answers with the last result stored under the name. *)
Lemma collect_get results ins :
  forall i m idx,
    price_map_get (collect i results m idx).1 ins
    = match last_fetch ins results with
      | Some q => quote_mark q
      | None => price_map_get m ins
      end.
Proof.
  induction results as [|[[name mark] ix] rest IH]; intros i m idx; simpl; [done|].
  rewrite IH. destruct (last_fetch ins rest); [done|].
  rewrite price_map_get_insert. unfold quote_name; simpl.
  by destruct (String.eqb name ins).
Qed.

Lemma collect_index_later results :
  forall i m idx, (collect (S i) results m idx).2 = idx.
Proof.
  induction results as [|[[name mark] ix] rest IH]; intros i m idx; simpl; [done|].
  rewrite IH. by destruct ix.
Qed.

(** Only the first result is looked at for the index price. *)
Lemma collect_index results m :
  (collect O results m None).2 = first_index results.
Proof.
  destruct results as [|[[name mark] ix] rest]; simpl; [done|].
  rewrite collect_index_later. by destruct ix.
Qed.

Lemma accumulate_ext f g legs :
  (forall leg, f leg = g leg) ->
  forall total, accumulate f legs total = accumulate g legs total.
Proof.
  intros Hfg. induction legs as [|leg legs IH]; intros total; simpl; [done|].
  rewrite Hfg. destruct (g leg); [|done]. by destruct (mul_int _ _).
Qed.

(** The second loop, split into its three results. *)
Lemma price_legs_split pm mark_of legs :
  (forall leg, price_map_get pm (instrument leg) = mark_of leg) ->
  forall total details ok,
    price_legs pm legs total details ok
    = match accumulate mark_of legs total with
      | Some t =>
          Some (t, (details ++ map (shown_line mark_of) legs)%list,
                ok && forallb (is_priced mark_of) legs)
      | None => None
      end.
Proof.
  intros Hget. induction legs as [|leg legs IH]; intros total details ok;
    cbn [price_legs accumulate map forallb].
  - by rewrite app_nil_r, andb_true_r.
  - unfold shown_line at 1, is_priced at 1. rewrite Hget.
    destruct (mark_of leg) as [p|].
    + destruct (mul_int p (quantity leg)) as [x|]; [|done].
      rewrite IH. fold (signed leg x).
      destruct (accumulate _ _ _); [|done]. by rewrite <- app_assoc.
    + rewrite IH. destruct (accumulate _ _ _); [|done].
      by rewrite <- app_assoc, andb_false_r.
Qed.

Lemma accumulate_fits mark_of legs :
  forallb fits legs = true ->
  forall total, exists t, accumulate mark_of legs total = Some t.
Proof.
  induction legs as [|leg legs IH]; intros Hfit total; simpl; [by eexists|].
  simpl in Hfit. apply andb_prop in Hfit as [Hleg Hfit].
  destruct (mark_of leg) as [p|]; [|by apply IH].
  unfold mul_int, fits in *. destruct (float_of_int (quantity leg)); [|done].
  by apply IH.
Qed.

Lemma accumulate_all_priced mark_of legs marks :
  Forall2 (fun leg p => mark_of leg = Some p) legs marks ->
  forall total, accumulate mark_of legs total = signed_sum total (zip legs marks).
Proof.
  induction 1 as [|leg p legs marks Hp _ IH]; intros total; simpl; [done|].
  rewrite Hp. unfold mul_int, signed.
  destruct (float_of_int (quantity leg)); [apply IH|done].
Qed.

Lemma price_map_resolves results leg :
  price_map_get (collect O results ∅ None).1 (instrument leg)
  = resolved_mark results leg.
Proof.
  unfold resolved_mark. rewrite collect_get.
  by destruct (last_fetch (instrument leg) results).
Qed.

(** ** The run of [mark_px] on a request that reaches the fetch stage *)

Lemma mark_px_run net inputs legs cur :
  parses_to inputs legs -> legs <> [] ->
  Forall (fun leg => underlying leg = cur) legs ->
  let results := gather net O legs in
  let mark_of := resolved_mark results in
  mark_px net inputs
  = ((map parse_call inputs ++ fetch_calls legs)%list,
     match accumulate mark_of legs 0%float with
     | Some total =>
         returned (report (map (shown_line mark_of) legs)
                     (if forallb (is_priced mark_of) legs
                      then net_line total (Some cur) (first_index results)
                      else net_unavailable))
     | None => raised_OverflowError
     end).
Proof.
  intros Hparse Hne Hcur results mark_of. unfold mark_px.
  rewrite (parse_legs_all _ _ Hparse).
  destruct legs as [|leg0 rest]; [done|].
  assert (Hcur0 : underlying leg0 = cur) by (by inversion Hcur).
  assert (Hnonempty : cur <> EmptyString).
  { pose proof Hparse as Hp.
    apply Forall2_cons_inv_r in Hp as (s & inputs' & Hs & _ & _).
    destruct (parsed_underlying _ _ Hs) as [H|[H|H]]; rewrite H in Hcur0;
      by rewrite <- Hcur0. }
  cbn [check_underlying]. rewrite Hcur0.
  rewrite check_underlying_same by (done || by inversion Hcur).
  fold results.
  pose proof (price_map_resolves results) as Hget. fold mark_of in Hget.
  pose proof (collect_index results ∅) as Hidx.
  destruct (collect O results ∅ None) as [pm idx]; simpl in Hget, Hidx; subst idx.
  rewrite (price_legs_split pm mark_of _ Hget).
  destruct (accumulate mark_of (leg0 :: rest) 0%float) as [total|]; [|done].
  cbn [app andb]. by destruct (forallb (is_priced mark_of) (leg0 :: rest)).
Qed.

Lemma first_failure (inputs : list string) :
  Exists (fun s => parse_leg_string s = None) inputs ->
  exists pre bad post,
    inputs = (pre ++ bad :: post)%list
    /\ Forall (fun s => parse_leg_string s <> None) pre
    /\ parse_leg_string bad = None.
Proof.
  induction inputs as [|s inputs IH]; intros H; [by inversion H|].
  destruct (parse_leg_string s) as [leg|] eqn:Hs.
  - inversion H as [? ? Hhd|? ? Htl]; subst; [congruence|].
    destruct (IH Htl) as (pre & bad & post & -> & Hpre & Hbad).
    exists (s :: pre), bad, post. repeat split; [|done].
    constructor; [congruence|done].
  - by exists [], s, inputs.
Qed.

Lemma first_other_underlying cur (legs : list Leg) :
  Exists (fun leg => underlying leg <> cur) legs ->
  exists pre other post,
    legs = (pre ++ other :: post)%list
    /\ Forall (fun leg => underlying leg = cur) pre
    /\ underlying other <> cur.
Proof.
  induction legs as [|leg legs IH]; intros H; [by inversion H|].
  destruct (string_dec (underlying leg) cur) as [Heq|Hne].
  - inversion H as [? ? Hhd|? ? Htl]; subst; [done|].
    destruct (IH Htl) as (pre & other & post & -> & Hpre & Hother).
    exists (leg :: pre), other, post. repeat split; [|done].
    by constructor.
  - by exists [], leg, legs.
Qed.

Lemma last_fetch_none ins results :
  (forall k q, results !! k = Some q -> quote_name q <> ins) ->
  last_fetch ins results = None.
Proof.
  induction results as [|q0 rest IH]; intros H; simpl; [done|].
  rewrite IH by (intros k q Hk; apply (H (S k) q Hk)).
  destruct (String.eqb_spec (quote_name q0) ins) as [E|]; [|done].
  by destruct (H O q0 eq_refl).
Qed.

(** The last fetch of [ins] is the one at the last position that names it. *)
Lemma last_fetch_position ins results :
  forall j q,
    results !! j = Some q -> quote_name q = ins ->
    (forall k q', (j < k)%nat -> results !! k = Some q' -> quote_name q' <> ins) ->
    last_fetch ins results = Some q.
Proof.
  induction results as [|q0 rest IH]; intros j q Hj Hname Hlater; [done|].
  destruct j as [|j]; simpl in *.
  - simplify_eq. rewrite last_fetch_none.
    + by rewrite String.eqb_refl.
    + intros k q' Hk. apply (Hlater (S k) q'); [lia|done].
  - erewrite IH; [done|done|done|].
    intros k q' Hlt Hk. apply (Hlater (S k) q'); [lia|done].
Qed.

Lemma own_quote_lookup net legs k leg :
  legs !! k = Some leg -> gather net O legs !! k = Some (own_quote net k leg).
Proof. intros H. by rewrite gather_lookup, H. Qed.

(** A leg is priced from the fetch of the last leg naming its instrument. *)
Lemma resolved_from_last net legs i j leg_i leg_j :
  legs !! i = Some leg_i -> legs !! j = Some leg_j ->
  instrument leg_i = instrument leg_j ->
  (forall k leg_k, (j < k)%nat -> legs !! k = Some leg_k ->
                   instrument leg_k <> instrument leg_j) ->
  resolved_mark (gather net O legs) leg_i = quote_mark (own_quote net j leg_j).
Proof.
  intros Hi Hj Hsame Hlast. unfold resolved_mark.
  rewrite (last_fetch_position _ _ j (own_quote net j leg_j)); [done| | |].
  - by apply own_quote_lookup.
  - unfold own_quote. by rewrite quote_name_fetch.
  - intros k q' Hlt Hk. rewrite gather_lookup in Hk.
    destruct (legs !! k) as [leg_k|] eqn:Ek; simpl in Hk; [|done].
    simplify_eq. rewrite quote_name_fetch, Hsame. by apply (Hlast k).
Qed.

Lemma nodup_no_later (legs : list Leg) k leg :
  NoDup (map instrument legs) -> legs !! k = Some leg ->
  forall k' leg', (k < k')%nat -> legs !! k' = Some leg' ->
                  instrument leg' <> instrument leg.
Proof.
  intros Hnd Hk k' leg' Hlt Hk' Heq.
  assert (k = k'); [|lia].
  eapply (NoDup_lookup (map instrument legs)); [done| |].
  - by rewrite list_lookup_fmap, Hk.
  - rewrite list_lookup_fmap, Hk'. simpl. by rewrite Heq.
Qed.

Lemma lines_all_priced mark_of legs marks :
  Forall2 (fun leg p => mark_of leg = Some p) legs marks ->
  map (shown_line mark_of) legs = zip_with priced_line legs marks
  /\ forallb (is_priced mark_of) legs = true.
Proof.
  induction 1 as [|leg p legs marks Hp _ [IH1 IH2]]; simpl; [done|].
  unfold shown_line at 1, is_priced at 1. by rewrite Hp, IH1, IH2.
Qed.

(** ** The properties of the specification *)

(** C3.  When some leg string is refused by the parser, [mark_px] returns the
    error message that carries the first refused string, in input order; the
    parser was called on the strings up to that one and on no later string,
    no quote was fetched, and nothing else is output. *)
Theorem first_parse_failure_aborts (net : network) (inputs : list string) :
  Exists (fun s => parse_leg_string s = None) inputs ->
  exists pre bad post,
    inputs = (pre ++ bad :: post)%list
    /\ Forall (fun s => parse_leg_string s <> None) pre
    /\ parse_leg_string bad = None
    /\ mark_px net inputs
       = (map parse_call (pre ++ [bad])%list,
          returned ("Error: Invalid leg format: '" ++ bad ++ "'")).
Proof.
  intros H. destruct (first_failure _ H) as (pre & bad & post & -> & Hpre & Hbad).
  exists pre, bad, post. repeat split; try done.
  unfold mark_px. by rewrite (parse_legs_first_bad pre bad post Hpre Hbad).
Qed.

Lemma first_parse_failure_aborts_witness :
  exists pre bad post,
    ["+1 BTC-26SEP25-95000-P"; "+1"; "two BTC-26SEP25-95000-P"]
    = (pre ++ bad :: post)%list
    /\ Forall (fun s => parse_leg_string s <> None) pre
    /\ parse_leg_string bad = None
    /\ mark_px (fun _ _ => request_failed)
         ["+1 BTC-26SEP25-95000-P"; "+1"; "two BTC-26SEP25-95000-P"]
       = (map parse_call (pre ++ [bad])%list,
          returned ("Error: Invalid leg format: '" ++ bad ++ "'")).
Proof.
  apply (first_parse_failure_aborts (fun _ _ => request_failed)).
  apply Exists_cons_tl, Exists_cons_hd. reflexivity.
Defined.

(** C4.  When every leg string is accepted and some leg's underlying (the
    text before the first hyphen of its instrument) differs from the first
    leg's, [mark_px] returns the error message naming the first leg's
    underlying and that of the first leg that differs; the calls made are the
    parser's only: no quote was fetched. *)
Theorem mixed_currency_aborts_before_fetch
    (net : network) (inputs : list string) (first : Leg) (rest : list Leg) :
  parses_to inputs (first :: rest) ->
  Exists (fun leg => underlying leg <> underlying first) rest ->
  exists pre other post,
    rest = (pre ++ other :: post)%list
    /\ same_underlying first pre
    /\ underlying other <> underlying first
    /\ mark_px net inputs
       = (map parse_call inputs,
          returned ("Error: All legs must have the same underlying currency. Found '"
                    ++ underlying first ++ "' and '" ++ underlying other ++ "'.")).
Proof.
  intros Hparse H.
  destruct (first_other_underlying _ _ H) as (pre & other & post & -> & Hpre & Hother).
  exists pre, other, post. repeat split; try done.
  unfold mark_px. rewrite (parse_legs_all _ _ Hparse). cbn [check_underlying].
  assert (Hne : underlying first <> EmptyString).
  { pose proof Hparse as Hp.
    apply Forall2_cons_inv_r in Hp as (s & inputs' & Hs & _ & _).
    destruct (parsed_underlying _ _ Hs) as [E|[E|E]]; by rewrite E. }
  by rewrite (check_underlying_differs _ pre other post Hne Hpre Hother).
Qed.

Lemma mixed_currency_aborts_before_fetch_witness :
  exists pre other post,
    [mkLeg "ETH-26SEP25-4000-C" sell 1] = (pre ++ other :: post)%list
    /\ same_underlying (mkLeg "BTC-26SEP25-95000-P" buy 1) pre
    /\ underlying other <> "BTC"
    /\ mark_px (fun _ _ => request_failed)
         ["+1 BTC-26SEP25-95000-P"; "-1 ETH-26SEP25-4000-C"]
       = (map parse_call ["+1 BTC-26SEP25-95000-P"; "-1 ETH-26SEP25-4000-C"],
          returned ("Error: All legs must have the same underlying currency. Found '"
                    ++ "BTC" ++ "' and '" ++ underlying other ++ "'.")).
Proof.
  apply (mixed_currency_aborts_before_fetch (fun _ _ => request_failed)
           ["+1 BTC-26SEP25-95000-P"; "-1 ETH-26SEP25-4000-C"]
           (mkLeg "BTC-26SEP25-95000-P" buy 1)
           [mkLeg "ETH-26SEP25-4000-C" sell 1]).
  - repeat constructor.
  - apply Exists_cons_hd. discriminate.
Defined.

(** C1.  The claim does not hold on every strategy it covers.  Here the one
    leg string is accepted, its leg resolves the mark price 0.10, and its
    quantity, a one followed by 309 zeros, is beyond the range of [float]:
    the product [mark_price * quantity] raises [OverflowError], which
    [mark_px] does not catch, and no net combo mark is reported.  On the
    strategies where every product exists the claim holds (the theorem that
    follows). *)
Lemma net_combo_mark_lost_to_overflow :
  let net : network := fun _ _ => ticker (Some 0.10%float) (Some 60000%float) in
  let input := "+1" ++ times "0" 309 ++ " BTC-26SEP25-95000-P" in
  let leg := mkLeg "BTC-26SEP25-95000-P" buy (10 ^ 309) in
  parse_leg_string input = Some leg
  /\ resolved_mark (gather net O [leg]) leg = Some 0.10%float
  /\ mark_px net [input]
     = ([parse_call input; fetch_call "BTC-26SEP25-95000-P"], raised_OverflowError).
Proof. repeat split; vm_compute; reflexivity. Qed.

(** For a strategy whose leg strings are all accepted, whose legs share the
    first leg's underlying and all resolve a mark price, and whose products
    [mark_price * quantity] all exist ([signed_sum] is [None] when a quantity
    is beyond the range of [float]), the report of [mark_px] has one priced
    line per leg and the net combo mark is the sum, taken over the legs in
    input order from 0.0, of [mark_price * quantity] negated for the sells,
    shown with four decimals and followed by the underlying. *)
Theorem net_combo_mark_is_signed_sum
    (net : network) (inputs : list string) (first : Leg) (rest : list Leg)
    (marks : list float) (total : float) :
  parses_to inputs (first :: rest) ->
  same_underlying first rest ->
  Forall2 (fun leg p => resolved_mark (gather net O (first :: rest)) leg = Some p)
    (first :: rest) marks ->
  signed_sum 0%float (zip (first :: rest) marks) = Some total ->
  (mark_px net inputs).2
  = returned
      (report (zip_with priced_line (first :: rest) marks)
         ("  Net Combo Mark: " ++ fmt_4f total ++ " " ++ underlying first ++ nl
          ++ "  Index Ref: $"
          ++ match first_index (gather net O (first :: rest)) with
             | Some x => fmt_grouped_0f x
             | None => "N/A"
             end)).
Proof.
  intros Hparse Hcur Hmarks Hsum.
  rewrite (mark_px_run net inputs (first :: rest) (underlying first));
    [|done|done|by constructor].
  cbn [snd]. rewrite (accumulate_all_priced _ _ _ Hmarks), Hsum.
  by destruct (lines_all_priced _ _ _ Hmarks) as [-> ->].
Qed.

(** Two legs, [+2 X] at 0.10 and [-1 Y] at 0.05: the net is 0.1500. *)
Lemma net_combo_mark_is_signed_sum_witness :
  (mark_px (fun i _ => match i with
                       | O => ticker (Some 0.10%float) (Some 60000%float)
                       | _ => ticker (Some 0.05%float) None
                       end)
     ["+2 BTC-26SEP25-95000-P"; "-1 BTC-26SEP25-90000-P"]).2
  = returned ("Combo Mark Price per unit" ++ nl ++ nl
              ++ " BUY  2x BTC-26SEP25-95000-P   : 0.1000" ++ nl
              ++ " SELL 1x BTC-26SEP25-90000-P   : 0.0500" ++ nl ++ nl
              ++ "----------------------------------------" ++ nl
              ++ "  Net Combo Mark: 0.1500 BTC" ++ nl
              ++ "  Index Ref: $60,000").
Proof.
  rewrite (net_combo_mark_is_signed_sum _ _
             (mkLeg "BTC-26SEP25-95000-P" buy 2)
             [mkLeg "BTC-26SEP25-90000-P" sell 1]
             [0.10%float; 0.05%float]
             (0 + 0.10 * 2 + - (0.05 * 1))%float).
  - vm_compute. reflexivity.
  - repeat constructor.
  - repeat constructor.
  - repeat constructor.
  - vm_compute. reflexivity.
Defined.

(** The example of the specification: [+1 X] at 0.10 and [-2 Y] at 0.05 net
    to 0.0000. *)
Lemma net_combo_mark_spec_example :
  (mark_px (fun i _ => match i with
                       | O => ticker (Some 0.10%float) (Some 60000%float)
                       | _ => ticker (Some 0.05%float) None
                       end)
     ["+1 BTC-26SEP25-95000-P"; "-2 BTC-26SEP25-90000-P"]).2
  = returned ("Combo Mark Price per unit" ++ nl ++ nl
              ++ " BUY  1x BTC-26SEP25-95000-P   : 0.1000" ++ nl
              ++ " SELL 2x BTC-26SEP25-90000-P   : 0.0500" ++ nl ++ nl
              ++ "----------------------------------------" ++ nl
              ++ "  Net Combo Mark: 0.0000 BTC" ++ nl
              ++ "  Index Ref: $60,000").
Proof. vm_compute. reflexivity. Qed.

(** C6, as amended.  When the index price is shown at all (every leg string
    accepted, one underlying, every leg priced, every quantity within the
    range of [float]), it is the index price of the first task's result, the
    fetch of the first leg, or [N/A] when that result has none: the results
    of the later legs are not looked at. *)
Theorem index_ref_is_first_leg_index
    (net : network) (inputs : list string) (first : Leg) (rest : list Leg) :
  parses_to inputs (first :: rest) ->
  same_underlying first rest ->
  forallb (is_priced (resolved_mark (gather net O (first :: rest))))
    (first :: rest) = true ->
  forallb fits (first :: rest) = true ->
  exists details total,
    (mark_px net inputs).2
    = returned
        (report details
           ("  Net Combo Mark: " ++ fmt_4f total ++ " " ++ underlying first ++ nl
            ++ "  Index Ref: $"
            ++ match quote_index (own_quote net O first) with
               | Some x => fmt_grouped_0f x
               | None => "N/A"
               end)).
Proof.
  intros Hparse Hcur Hpriced Hfits.
  rewrite (mark_px_run net inputs (first :: rest) (underlying first));
    [|done|done|by constructor].
  destruct (accumulate_fits (resolved_mark (gather net O (first :: rest)))
              _ Hfits 0%float) as [total ->].
  cbn [snd]. rewrite Hpriced. by eexists _, total.
Qed.

Lemma index_ref_is_first_leg_index_witness :
  exists details total,
    (mark_px (fun i _ => match i with
                         | O => ticker (Some 0.10%float) (Some 60000%float)
                         | _ => ticker (Some 0.05%float) (Some 61000%float)
                         end)
       ["+1 BTC-26SEP25-95000-P"; "-2 BTC-26SEP25-90000-P"]).2
    = returned
        (report details
           ("  Net Combo Mark: " ++ fmt_4f total ++ " " ++ "BTC" ++ nl
            ++ "  Index Ref: $" ++ "60,000")).
Proof.
  apply (index_ref_is_first_leg_index
           (fun i _ => match i with
                       | O => ticker (Some 0.10%float) (Some 60000%float)
                       | _ => ticker (Some 0.05%float) (Some 61000%float)
                       end)
           ["+1 BTC-26SEP25-95000-P"; "-2 BTC-26SEP25-90000-P"]
           (mkLeg "BTC-26SEP25-95000-P" buy 1)
           [mkLeg "BTC-26SEP25-90000-P" sell 2]).
  - repeat constructor.
  - repeat constructor.
  - vm_compute. reflexivity.
  - vm_compute. reflexivity.
Defined.

(** C6 as stated fails: the first leg's result has a mark price and no index
    price, the second leg's result has the index price 60000, and the report
    shows [N/A]. *)
Lemma index_ref_ignores_later_legs :
  let net : network := fun i _ =>
    match i with
    | O => ticker (Some 0.10%float) None
    | _ => ticker (Some 0.05%float) (Some 60000%float)
    end in
  let inputs := ["+1 BTC-26SEP25-95000-P"; "-2 BTC-26SEP25-90000-P"] in
  map quote_index (gather net O [mkLeg "BTC-26SEP25-95000-P" buy 1;
                                 mkLeg "BTC-26SEP25-90000-P" sell 2])
  = [None; Some 60000%float]
  /\ (mark_px net inputs).2
     = returned ("Combo Mark Price per unit" ++ nl ++ nl
                 ++ " BUY  1x BTC-26SEP25-95000-P   : 0.1000" ++ nl
                 ++ " SELL 2x BTC-26SEP25-90000-P   : 0.0500" ++ nl ++ nl
                 ++ "----------------------------------------" ++ nl
                 ++ "  Net Combo Mark: 0.0000 BTC" ++ nl
                 ++ "  Index Ref: $N/A").
Proof. split; vm_compute; reflexivity. Qed.

Lemma lines_of_own_fetches net (legs : list Leg) :
  NoDup (map instrument legs) ->
  map (shown_line (resolved_mark (gather net O legs))) legs
  = imap (fun k leg => shown_line (fun l => quote_mark (own_quote net k l)) leg) legs.
Proof.
  intros Hnd. apply list_eq. intros k.
  rewrite list_lookup_fmap, list_lookup_imap.
  destruct (legs !! k) as [leg|] eqn:Hk; simpl; [|done].
  unfold shown_line.
  rewrite (resolved_from_last net legs k k leg leg Hk Hk eq_refl); [done|].
  by apply nodup_no_later.
Qed.

(** C2, as amended.  For a strategy whose leg strings are all accepted,
    whose legs share one underlying and name pairwise distinct instruments,
    with quantities within the range of [float]: when the fetch of some leg
    returns no mark price, [mark_px] still fetches every leg and returns a
    complete report, with one line per leg in input order, the line of a leg
    showing the mark price of its own fetch or [ERROR (Price not found)] when
    that fetch returned none, and the last line says that the net combo mark
    is not available. *)
Theorem partial_failure_reports_every_leg
    (net : network) (inputs : list string) (first : Leg) (rest : list Leg)
    (k : nat) (failed : Leg) :
  parses_to inputs (first :: rest) ->
  same_underlying first rest ->
  NoDup (map instrument (first :: rest)) ->
  forallb fits (first :: rest) = true ->
  (first :: rest) !! k = Some failed ->
  quote_mark (own_quote net k failed) = None ->
  mark_px net inputs
  = ((map parse_call inputs ++ fetch_calls (first :: rest))%list,
     returned
       (report
          (imap (fun i leg =>
                   match quote_mark (own_quote net i leg) with
                   | Some mark_price => priced_line leg mark_price
                   | None => error_line leg
                   end) (first :: rest))
          "  Net Combo Mark: N/A (Could not fetch price for all legs)")).
Proof.
  intros Hparse Hcur Hnd Hfits Hk Hfailed.
  rewrite (mark_px_run net inputs (first :: rest) (underlying first));
    [|done|done|by constructor].
  destruct (accumulate_fits (resolved_mark (gather net O (first :: rest)))
              _ Hfits 0%float) as [total ->].
  rewrite (lines_of_own_fetches net _ Hnd).
  assert (Hnot : forallb (is_priced (resolved_mark (gather net O (first :: rest))))
                   (first :: rest) = false).
  { apply not_true_is_false. intros Hall.
    rewrite forallb_forall in Hall.
    assert (Hin : In failed (first :: rest)).
    { apply list_elem_of_In. by eapply list_elem_of_lookup_2. }
    specialize (Hall failed Hin). unfold is_priced in Hall.
    rewrite (resolved_from_last net _ k k failed failed Hk Hk eq_refl) in Hall
      by (by apply nodup_no_later).
    by rewrite Hfailed in Hall. }
  by rewrite Hnot.
Qed.

Lemma partial_failure_reports_every_leg_witness :
  mark_px (fun i _ => match i with
                      | O => ticker (Some 0.10%float) (Some 60000%float)
                      | _ => request_failed
                      end)
    ["+1 BTC-26SEP25-95000-P"; "-2 BTC-26SEP25-90000-P"]
  = ([parse_call "+1 BTC-26SEP25-95000-P"; parse_call "-2 BTC-26SEP25-90000-P";
      fetch_call "BTC-26SEP25-95000-P"; fetch_call "BTC-26SEP25-90000-P"],
     returned ("Combo Mark Price per unit" ++ nl ++ nl
               ++ " BUY  1x BTC-26SEP25-95000-P   : 0.1000" ++ nl
               ++ " SELL 2x BTC-26SEP25-90000-P   : ERROR (Price not found)"
               ++ nl ++ nl
               ++ "----------------------------------------" ++ nl
               ++ "  Net Combo Mark: N/A (Could not fetch price for all legs)")).
Proof.
  rewrite (partial_failure_reports_every_leg _ _
             (mkLeg "BTC-26SEP25-95000-P" buy 1)
             [mkLeg "BTC-26SEP25-90000-P" sell 2]
             1%nat (mkLeg "BTC-26SEP25-90000-P" sell 2)).
  - vm_compute. reflexivity.
  - repeat constructor.
  - repeat constructor.
  - apply (bool_decide_unpack _). vm_compute. reflexivity.
  - vm_compute. reflexivity.
  - reflexivity.
  - reflexivity.
Defined.

(** C2 as stated fails when two legs name one instrument: the fetch of the
    first leg fails, the fetch of the second leg succeeds, and both legs are
    priced from the second fetch; no line is an error line and a net combo
    mark is computed. *)
Lemma failed_fetch_hidden_by_later_fetch :
  let net : network := fun i _ =>
    match i with
    | O => request_failed
    | _ => ticker (Some 0.10%float) (Some 60000%float)
    end in
  let inputs := ["+1 BTC-26SEP25-95000-P"; "+2 BTC-26SEP25-95000-P"] in
  map quote_mark (gather net O [mkLeg "BTC-26SEP25-95000-P" buy 1;
                                mkLeg "BTC-26SEP25-95000-P" buy 2])
  = [None; Some 0.10%float]
  /\ (mark_px net inputs).2
     = returned ("Combo Mark Price per unit" ++ nl ++ nl
                 ++ " BUY  1x BTC-26SEP25-95000-P   : 0.1000" ++ nl
                 ++ " BUY  2x BTC-26SEP25-95000-P   : 0.1000" ++ nl ++ nl
                 ++ "----------------------------------------" ++ nl
                 ++ "  Net Combo Mark: 0.3000 BTC" ++ nl
                 ++ "  Index Ref: $N/A").
Proof. split; vm_compute; reflexivity. Qed.

(** C7, as amended.  For a request of two legs whose strings are accepted and
    that share one underlying, with quantities within the range of [float],
    where the fetch of the first leg fails and the fetch of the second leg
    returns a mark price and an index price:
    - when the legs name different instruments, the first line is an error
      line, the report ends with the line saying that the net combo mark is
      not available, and there is no index line at all;
    - when the legs name the same instrument, both are priced from the second
      fetch and the report ends with the index line, which reads [$N/A]. *)
Theorem index_ref_after_failed_first_fetch
    (net : network) (inputs : list string) (leg1 leg2 : Leg) (p idx : float) :
  parses_to inputs [leg1; leg2] ->
  same_underlying leg1 [leg2] ->
  forallb fits [leg1; leg2] = true ->
  own_quote net 0 leg1 = (instrument leg1, None, None) ->
  own_quote net 1 leg2 = (instrument leg2, Some p, Some idx) ->
  (instrument leg1 <> instrument leg2 ->
   (mark_px net inputs).2
   = returned (report [error_line leg1; priced_line leg2 p]
                 "  Net Combo Mark: N/A (Could not fetch price for all legs)"))
  /\ (instrument leg1 = instrument leg2 ->
      exists total,
        (mark_px net inputs).2
        = returned (report [priced_line leg1 p; priced_line leg2 p]
                      ("  Net Combo Mark: " ++ fmt_4f total ++ " "
                       ++ underlying leg1 ++ nl ++ "  Index Ref: $N/A"))).
Proof.
  intros Hparse Hcur Hfits H1 H2.
  rewrite (mark_px_run net inputs [leg1; leg2] (underlying leg1));
    [|done|done|by constructor].
  destruct (accumulate_fits (resolved_mark (gather net O [leg1; leg2]))
              _ Hfits 0%float) as [total ->].
  assert (Hidx : first_index (gather net O [leg1; leg2]) = None).
  { simpl. fold (own_quote net 0 leg1). by rewrite H1. }
  assert (Hr2 : resolved_mark (gather net O [leg1; leg2]) leg2 = Some p).
  { rewrite (resolved_from_last net [leg1; leg2] 1 1 leg2 leg2); [by rewrite H2|done..|].
    intros k leg_k Hlt Hk. destruct k as [|[|k]]; [lia|lia|done]. }
  cbn [snd map forallb]. unfold shown_line, is_priced. rewrite Hr2, Hidx.
  split.
  - intros Hne.
    rewrite (resolved_from_last net [leg1; leg2] 0 0 leg1 leg1); [by rewrite H1|done..|].
    intros k leg_k Hlt Hk. destruct k as [|[|k]]; [lia| |done].
    simpl in Hk. simplify_eq. by intros E.
  - intros Heq.
    rewrite (resolved_from_last net [leg1; leg2] 0 1 leg1 leg2); [|done..|].
    + rewrite H2. by exists total.
    + intros k leg_k Hlt Hk. destruct k as [|[|k]]; [lia|lia|done].
Qed.

Lemma index_ref_after_failed_first_fetch_witness :
  let net : network := fun i _ =>
    match i with
    | O => request_failed
    | _ => ticker (Some 0.05%float) (Some 60000%float)
    end in
  let inputs := ["+1 BTC-26SEP25-95000-P"; "-1 BTC-26SEP25-90000-P"] in
  let leg1 := mkLeg "BTC-26SEP25-95000-P" buy 1 in
  let leg2 := mkLeg "BTC-26SEP25-90000-P" sell 1 in
  (instrument leg1 <> instrument leg2 ->
   (mark_px net inputs).2
   = returned (report [error_line leg1; priced_line leg2 0.05%float]
                 "  Net Combo Mark: N/A (Could not fetch price for all legs)"))
  /\ (instrument leg1 = instrument leg2 ->
      exists total,
        (mark_px net inputs).2
        = returned (report [priced_line leg1 0.05%float; priced_line leg2 0.05%float]
                      ("  Net Combo Mark: " ++ fmt_4f total ++ " "
                       ++ underlying leg1 ++ nl ++ "  Index Ref: $N/A"))).
Proof.
  intros net inputs leg1 leg2.
  apply (index_ref_after_failed_first_fetch net inputs leg1 leg2
           0.05%float 60000%float).
  - repeat constructor.
  - repeat constructor.
  - vm_compute. reflexivity.
  - reflexivity.
  - reflexivity.
Defined.

(** C7 as stated fails: with two legs naming different instruments, a failed
    first fetch and a second fetch that returns a mark price and the index
    price 60000, the report has no index line. *)
Lemma no_index_line_after_failed_first_fetch :
  let net : network := fun i _ =>
    match i with
    | O => request_failed
    | _ => ticker (Some 0.05%float) (Some 60000%float)
    end in
  let inputs := ["+1 BTC-26SEP25-95000-P"; "-1 BTC-26SEP25-90000-P"] in
  exists text,
    (mark_px net inputs).2 = returned text
    /\ text = "Combo Mark Price per unit" ++ nl ++ nl
              ++ " BUY  1x BTC-26SEP25-95000-P   : ERROR (Price not found)" ++ nl
              ++ " SELL 1x BTC-26SEP25-90000-P   : 0.0500" ++ nl ++ nl
              ++ "----------------------------------------" ++ nl
              ++ "  Net Combo Mark: N/A (Could not fetch price for all legs)"
    /\ in_str "Index Ref" text = false.
Proof. eexists. repeat split; vm_compute; reflexivity. Qed.

(** C8, as amended.  For every request that reaches the fetch stage (every
    leg string accepted, one underlying), with quantities within the range
    of [float], one quote is fetched per leg and the report has one line per
    leg, in input order; the line of a leg is a priced line exactly when the
    last fetch, in leg order, of that leg's instrument returned a mark price.
    For a leg whose instrument no later leg names, that fetch is the leg's
    own. *)
Theorem leg_lines_keep_input_order
    (net : network) (inputs : list string) (first : Leg) (rest : list Leg) :
  parses_to inputs (first :: rest) ->
  same_underlying first rest ->
  forallb fits (first :: rest) = true ->
  (exists last_line,
      mark_px net inputs
      = ((map parse_call inputs ++ fetch_calls (first :: rest))%list,
         returned
           (report
              (map (fun leg =>
                      match resolved_mark (gather net O (first :: rest)) leg with
                      | Some mark_price => priced_line leg mark_price
                      | None => error_line leg
                      end) (first :: rest))
              last_line)))
  /\ (forall k leg,
         (first :: rest) !! k = Some leg ->
         (forall k' leg', (k < k')%nat -> (first :: rest) !! k' = Some leg' ->
                          instrument leg' <> instrument leg) ->
         resolved_mark (gather net O (first :: rest)) leg
         = quote_mark (own_quote net k leg)).
Proof.
  intros Hparse Hcur Hfits. split.
  - rewrite (mark_px_run net inputs (first :: rest) (underlying first));
      [|done|done|by constructor].
    destruct (accumulate_fits (resolved_mark (gather net O (first :: rest)))
                _ Hfits 0%float) as [total ->].
    by eexists.
  - intros k leg Hk Hlast. by apply (resolved_from_last net _ k k leg leg).
Qed.

Lemma leg_lines_keep_input_order_witness :
  let net : network := fun i _ =>
    match i with
    | O => request_failed
    | _ => ticker (Some 0.05%float) (Some 60000%float)
    end in
  let legs := [mkLeg "BTC-26SEP25-95000-P" buy 1;
               mkLeg "BTC-26SEP25-90000-P" sell 3] in
  let inputs := ["+1 BTC-26SEP25-95000-P"; "-3 BTC-26SEP25-90000-P"] in
  (exists last_line,
      mark_px net inputs
      = ((map parse_call inputs ++ fetch_calls legs)%list,
         returned
           (report
              (map (fun leg =>
                      match resolved_mark (gather net O legs) leg with
                      | Some mark_price => priced_line leg mark_price
                      | None => error_line leg
                      end) legs)
              last_line)))
  /\ (forall k leg,
         legs !! k = Some leg ->
         (forall k' leg', (k < k')%nat -> legs !! k' = Some leg' ->
                          instrument leg' <> instrument leg) ->
         resolved_mark (gather net O legs) leg = quote_mark (own_quote net k leg)).
Proof.
  intros net legs inputs.
  apply (leg_lines_keep_input_order net inputs
           (mkLeg "BTC-26SEP25-95000-P" buy 1)
           [mkLeg "BTC-26SEP25-90000-P" sell 3]).
  - repeat constructor.
  - repeat constructor.
  - vm_compute. reflexivity.
Defined.

(** C8 as stated fails when two legs name one instrument: the fetch of the
    first leg returns a mark price, the fetch of the second leg fails, and
    the line of the first leg is an error line. *)
Lemma priced_fetch_hidden_by_later_failure :
  let net : network := fun i _ =>
    match i with
    | O => ticker (Some 0.10%float) (Some 60000%float)
    | _ => request_failed
    end in
  let inputs := ["+1 BTC-26SEP25-95000-P"; "-1 BTC-26SEP25-95000-P"] in
  map quote_mark (gather net O [mkLeg "BTC-26SEP25-95000-P" buy 1;
                                mkLeg "BTC-26SEP25-95000-P" sell 1])
  = [Some 0.10%float; None]
  /\ (mark_px net inputs).2
     = returned ("Combo Mark Price per unit" ++ nl ++ nl
                 ++ " BUY  1x BTC-26SEP25-95000-P   : ERROR (Price not found)" ++ nl
                 ++ " SELL 1x BTC-26SEP25-95000-P   : ERROR (Price not found)"
                 ++ nl ++ nl
                 ++ "----------------------------------------" ++ nl
                 ++ "  Net Combo Mark: N/A (Could not fetch price for all legs)").
Proof. split; vm_compute; reflexivity. Qed.

(** C10.  The price map is keyed by the instrument name, and each of several
    legs naming one instrument resolves the mark price of the last of their
    fetches; but these legs show that outcome only when a report is returned.
    Here two legs name one instrument, the first fetch fails and the second
    returns 0.10, so that both legs resolve 0.10; the quantity of the second,
    a one followed by 309 zeros, is beyond the range of [float], the product
    [mark_price * quantity] raises [OverflowError], and nothing is shown for
    either leg. *)
Lemma duplicate_legs_lost_to_overflow :
  let net : network := fun i _ =>
    match i with
    | O => request_failed
    | _ => ticker (Some 0.10%float) (Some 60000%float)
    end in
  let large := "+1" ++ times "0" 309 ++ " BTC-26SEP25-95000-P" in
  let inputs := ["+1 BTC-26SEP25-95000-P"; large] in
  let legs := [mkLeg "BTC-26SEP25-95000-P" buy 1;
               mkLeg "BTC-26SEP25-95000-P" buy (10 ^ 309)] in
  map parse_leg_string inputs = map Some legs
  /\ map quote_mark (gather net O legs) = [None; Some 0.10%float]
  /\ map (resolved_mark (gather net O legs)) legs
     = [Some 0.10%float; Some 0.10%float]
  /\ mark_px net inputs
     = ([parse_call "+1 BTC-26SEP25-95000-P"; parse_call large;
         fetch_call "BTC-26SEP25-95000-P"; fetch_call "BTC-26SEP25-95000-P"],
        raised_OverflowError).
Proof. repeat split; vm_compute; reflexivity. Qed.

(** When a report is produced: the price map answers, for the instrument of
    leg [i], with the mark price of the fetch of leg [j], the last leg naming
    that instrument, and the line of leg [i] in the report shows that
    outcome. *)
Lemma duplicate_instrument_priced_from_last_fetch
    (net : network) (inputs : list string) (first : Leg) (rest : list Leg)
    (i j : nat) (leg_i leg_j : Leg) :
  parses_to inputs (first :: rest) ->
  same_underlying first rest ->
  (first :: rest) !! i = Some leg_i ->
  (first :: rest) !! j = Some leg_j ->
  instrument leg_i = instrument leg_j ->
  (forall k leg_k, (j < k)%nat -> (first :: rest) !! k = Some leg_k ->
                   instrument leg_k <> instrument leg_j) ->
  price_map_get (collect O (gather net O (first :: rest)) ∅ None).1 (instrument leg_i)
  = quote_mark (own_quote net j leg_j)
  /\ (forallb fits (first :: rest) = true ->
      exists details last_line,
        (mark_px net inputs).2 = returned (report details last_line)
        /\ length details = length (first :: rest)
        /\ details !! i
           = Some match quote_mark (own_quote net j leg_j) with
                  | Some mark_price => priced_line leg_i mark_price
                  | None => error_line leg_i
                  end).
Proof.
  intros Hparse Hcur Hi Hj Hsame Hlast.
  pose proof (resolved_from_last net _ i j leg_i leg_j Hi Hj Hsame Hlast) as Hres.
  split; [by rewrite price_map_resolves|].
  intros Hfits.
  rewrite (mark_px_run net inputs (first :: rest) (underlying first));
    [|done|done|by constructor].
  destruct (accumulate_fits (resolved_mark (gather net O (first :: rest)))
              _ Hfits 0%float) as [total ->].
  eexists _, _. split; [done|]. split; [by rewrite length_map|].
  rewrite list_lookup_fmap, Hi. cbn [fmap option_fmap option_map].
  unfold shown_line. by rewrite Hres.
Qed.

(** C9, as amended.  The instrument of every leg returned by
    [parse_leg_string] has no lower-case letter and starts with [BTC-],
    [ETH-] or [USDC-].  The number of its hyphen-separated fields is not
    checked: it is what the input gives. *)
Theorem parsed_instrument_upper_with_currency (s : string) (leg : Leg) :
  parse_leg_string s = Some leg ->
  upper (instrument leg) = instrument leg
  /\ (startswith "BTC-" (instrument leg) = true
      \/ startswith "ETH-" (instrument leg) = true
      \/ startswith "USDC-" (instrument leg) = true).
Proof.
  intros H. split.
  - destruct (parse_leg_string_inv _ _ H) as (ins & -> & _). apply upper_idem.
  - pose proof (parsed_known_currency _ _ H) as Hk. unfold known_currency in Hk.
    apply orb_prop in Hk as [Hk|Hk]; [apply orb_prop in Hk as [Hk|Hk]|]; auto.
Qed.

Lemma parsed_instrument_upper_with_currency_witness :
  upper "ETH-27JUN25-4000-C" = "ETH-27JUN25-4000-C"
  /\ (startswith "BTC-" "ETH-27JUN25-4000-C" = true
      \/ startswith "ETH-" "ETH-27JUN25-4000-C" = true
      \/ startswith "USDC-" "ETH-27JUN25-4000-C" = true).
Proof.
  apply (parsed_instrument_upper_with_currency "-2 eth-27jun25-4000-c"
           (mkLeg "ETH-27JUN25-4000-C" sell 2)).
  reflexivity.
Defined.

(** C9 as stated fails: an accepted input whose instrument has two fields,
    and one whose instrument has five. *)
Lemma parsed_instrument_field_count_varies :
  parse_leg_string "+1 FOO" = Some (mkLeg "BTC-FOO" buy 1)
  /\ split_on "-" "BTC-FOO" = ["BTC"; "FOO"]
  /\ parse_leg_string "+1 X 26SEP25 95000 P"
     = Some (mkLeg "BTC-X-26SEP25-95000-P" buy 1)
  /\ length (split_on "-" "BTC-X-26SEP25-95000-P") = 5%nat.
Proof. repeat split; vm_compute; reflexivity. Qed.

(** C5, as amended.  For an input whose tokens, once trimmed and upper-cased,
    are an unsigned numeric token [q] followed by one, three or four tokens
    whose hyphen-joined text [ins] has two hyphens or more, and whose [q]
    reads as a positive integer [n]: [parse_leg_string] returns a buy of
    quantity [n]; its instrument is [ins], with [BTC-] put in front when
    [ins] starts with none of [BTC-], [ETH-], [USDC-], and then, when it
    starts with [BTC-] and has exactly four fields of which the strike is
    numeric and at most three characters long, with [000] added to the
    strike. *)
Theorem unsigned_quantity_is_a_buy
    (s q : string) (toks : list string) (ins : string) (n : Z) :
  split_ws (upper (strip s)) = q :: toks ->
  isdigit q = true ->
  join_instrument toks = Some ins ->
  (2 <= count_char "-" ins)%nat ->
  int_of_str q = Some n ->
  0 < n ->
  parse_leg_string s
  = Some (mkLeg
            (let with_currency :=
               if startswith "BTC-" ins || startswith "ETH-" ins
                  || startswith "USDC-" ins
               then ins else "BTC-" ++ ins in
             match split_on "-" with_currency with
             | [currency; expiry; strike; type] =>
                 if startswith "BTC-" with_currency && isdigit strike
                    && (String.length strike <=? 3)%nat
                 then currency ++ "-" ++ expiry ++ "-" ++ (strike ++ "000")
                      ++ "-" ++ type
                 else with_currency
             | _ => with_currency
             end)
            buy n).
Proof.
  intros Htok Hq Hjoin Hcount Hint Hpos.
  assert (Hup : Forall uppercase (q :: toks)).
  { rewrite <- Htok. apply uppercase_split_ws, uppercase_upper. }
  apply Forall_cons in Hup as [_ Hup].
  pose proof (uppercase_join_instrument _ _ Hup Hjoin) as Hins.
  pose proof (uppercase_expand _ (uppercase_default _ Hins)) as Hfinal.
  destruct (isdigit_unsigned _ Hq) as [Hplus Hminus].
  unfold parse_leg_string. rewrite Htok.
  destruct toks as [|t toks]; [done|]. rewrite Hjoin.
  unfold fix_sign. rewrite Hplus, Hminus, Hq. cbn [orb andb].
  destruct (Nat.leb_spec 2 (count_char "-" ins)) as [_|]; [|lia].
  replace (startswith "+" ("+" ++ q)) with true by (symmetry; apply startswith_app).
  replace (tail ("+" ++ q)) with q by reflexivity.
  rewrite Hint. destruct (Z.leb_spec n 0) as [|_]; [lia|].
  cbv zeta. rewrite Hfinal. do 2 f_equal.
  change (if startswith "BTC-" ins || startswith "ETH-" ins
             || startswith "USDC-" ins
          then ins else "BTC-" ++ ins) with (default_currency ins).
  generalize (default_currency ins) as w. intros w. unfold expand_strike.
  destruct (startswith "BTC-" w);
    destruct (split_on "-" w) as [|f0 [|f1 [|f2 [|f3 [|]]]]]; try done.
Qed.

(** The example of the specification: ['1 26SEP25-95000-P']. *)
Lemma unsigned_quantity_is_a_buy_witness :
  parse_leg_string "1 26SEP25-95000-P" = Some (mkLeg "BTC-26SEP25-95000-P" buy 1).
Proof.
  apply (unsigned_quantity_is_a_buy "1 26SEP25-95000-P" "1"
           ["26SEP25-95000-P"] "26SEP25-95000-P" 1).
  - reflexivity.
  - reflexivity.
  - reflexivity.
  - vm_compute. lia.
  - reflexivity.
  - lia.
Defined.

(** C5 as stated fails for the quantity [0]: the input is refused. *)
Lemma unsigned_zero_quantity_is_refused :
  split_ws (upper (strip "0 26SEP25-95000-P")) = ["0"; "26SEP25-95000-P"]
  /\ isdigit "0" = true
  /\ count_char "-" "26SEP25-95000-P" = 2%nat
  /\ parse_leg_string "0 26SEP25-95000-P" = None.
Proof. repeat split; vm_compute; reflexivity. Qed.

(** ** Further properties of the pricer *)

Lemma parse_legs_accepted inputs calls legs :
  parse_legs inputs = (calls, inr legs) -> parses_to inputs legs.
Proof.
  revert calls legs. induction inputs as [|s inputs IH]; intros calls legs H; simpl in H.
  - simplify_eq. constructor.
  - destruct (parse_leg_string s) as [leg|] eqn:Hs; [|done].
    destruct (parse_legs inputs) as [calls' [bad|legs']]; simplify_eq.
    constructor; [done|]. by eapply IH.
Qed.

Lemma accumulate_overflow mark_of legs leg p :
  In leg legs -> mark_of leg = Some p -> fits leg = false ->
  forall total, accumulate mark_of legs total = None.
Proof.
  intros Hin Hp Hfit. induction legs as [|l legs IH]; intros total; [done|].
  simpl. destruct Hin as [->|Hin].
  - rewrite Hp. unfold mul_int, fits in *.
    by destruct (float_of_int (quantity leg)).
  - destruct (mark_of l); [|by apply IH].
    destruct (mul_int _ _); [by apply IH|done].
Qed.

(** The multiplication [mark_price * quantity] is not guarded: when a leg
    that resolves a mark price, a float, has a quantity beyond the range of
    [float], [mark_px] ends with [OverflowError] and returns no text. *)
Theorem mark_px_overflow_raises
    (net : network) (inputs : list string) (first : Leg) (rest : list Leg)
    (leg : Leg) (p : float) :
  parses_to inputs (first :: rest) ->
  same_underlying first rest ->
  In leg (first :: rest) ->
  resolved_mark (gather net O (first :: rest)) leg = Some p ->
  fits leg = false ->
  (mark_px net inputs).2 = raised_OverflowError.
Proof.
  intros Hparse Hcur Hin Hp Hfit.
  rewrite (mark_px_run net inputs (first :: rest) (underlying first));
    [|done|done|by constructor].
  cbn [snd]. by rewrite (accumulate_overflow _ _ leg p Hin Hp Hfit).
Qed.

Lemma mark_px_overflow_raises_witness :
  (mark_px (fun _ _ => ticker (Some 0.10%float) None)
     ["+1" ++ times "0" 309 ++ " BTC-26SEP25-95000-P"]).2
  = raised_OverflowError.
Proof.
  apply (mark_px_overflow_raises _ _
           (mkLeg "BTC-26SEP25-95000-P" buy (10 ^ 309)) []
           (mkLeg "BTC-26SEP25-95000-P" buy (10 ^ 309)) 0.10%float).
  - constructor; [|constructor]. vm_compute. reflexivity.
  - constructor.
  - by left.
  - reflexivity.
  - vm_compute. reflexivity.
Defined.

(** With quotes whose prices are floats or null, nothing else makes [mark_px]
    fail: when the quantity of every accepted leg string converts to [float],
    [mark_px] returns a text, whichever requests fail and whatever prices the
    others return. *)
Theorem mark_px_returns_when_quantities_fit
    (net : network) (inputs : list string) :
  (forall s leg, In s inputs -> parse_leg_string s = Some leg -> fits leg = true) ->
  exists text, (mark_px net inputs).2 = returned text.
Proof.
  intros Hfit. unfold mark_px.
  destruct (parse_legs inputs) as [calls [bad|legs]] eqn:Hp; [by eexists|].
  destruct legs as [|leg0 legs]; [by eexists|].
  destruct (check_underlying None (leg0 :: legs)) as [[c1 c2]|cur]; [by eexists|].
  apply parse_legs_accepted in Hp.
  assert (Hall : forallb fits (leg0 :: legs) = true).
  { apply forallb_forall. intros leg Hin.
    apply list_elem_of_In in Hin.
    destruct (proj1 (list_elem_of_lookup _ _) Hin) as [k Hk].
    destruct (Forall2_lookup_r _ _ _ _ _ Hp Hk) as (s & Hs & Hsl).
    apply (Hfit s leg); [|done].
    apply list_elem_of_In. by eapply list_elem_of_lookup_2. }
  cbv zeta.
  pose proof (price_map_resolves (gather net O (leg0 :: legs))) as Hget.
  destruct (collect O (gather net O (leg0 :: legs)) ∅ None) as [pm idx];
    cbn [fst] in Hget.
  rewrite (price_legs_split pm _ _ Hget).
  destruct (accumulate_fits (resolved_mark (gather net O (leg0 :: legs)))
              _ Hall 0%float) as [total ->].
  destruct (forallb (is_priced _) _); eexists; reflexivity.
Qed.

Lemma mark_px_returns_when_quantities_fit_witness :
  exists text,
    (mark_px (fun _ _ => request_failed) ["+1 BTC-26SEP25-95000-P"; "oops"]).2
    = returned text.
Proof.
  apply mark_px_returns_when_quantities_fit.
  intros s leg [<-|[<-|[]]] H; vm_compute in H; [by simplify_eq|done].
Defined.

(** ** Further properties of the leg parser *)

Lemma is_space_upper_char c : is_space (upper_char c) = is_space c.
Proof. destruct c as [[] [] [] [] [] [] [] []]; reflexivity. Qed.

Lemma upper_lstrip s : upper (lstrip s) = lstrip (upper s).
Proof.
  induction s as [|c r IH]; simpl; [done|].
  rewrite is_space_upper_char. by destruct (is_space c).
Qed.

Lemma upper_rstrip s : upper (rstrip s) = rstrip (upper s).
Proof.
  induction s as [|c r IH]; simpl; [done|].
  rewrite <- IH, is_space_upper_char.
  destruct (rstrip r); simpl; [by destruct (is_space c)|done].
Qed.

Lemma upper_strip s : upper (strip s) = strip (upper s).
Proof. unfold strip. by rewrite upper_rstrip, upper_lstrip. Qed.

Lemma split_ws_lstrip s : split_ws (lstrip s) = split_ws s.
Proof.
  induction s as [|c r IH]; [done|].
  cbn [lstrip]. destruct (is_space c) eqn:Hc; [|done].
  rewrite IH. cbn [split_ws]. by rewrite Hc.
Qed.

Lemma rstrip_head c r a b : rstrip (String c r) = String a b -> a = c.
Proof.
  simpl. destruct (rstrip r); [destruct (is_space c)|]; intros H; by simplify_eq.
Qed.

Lemma split_ws_eq c r :
  split_ws (String c r)
  = if is_space c then split_ws r
    else match r with
         | EmptyString => [String c EmptyString]
         | String c' _ =>
             if is_space c' then String c EmptyString :: split_ws r
             else match split_ws r with
                  | [] => [String c EmptyString]
                  | w :: ws => String c w :: ws
                  end
         end.
Proof. reflexivity. Qed.

Lemma split_ws_rstrip s : split_ws (rstrip s) = split_ws s.
Proof.
  induction s as [|c r IH]; [done|].
  cbn [rstrip]. destruct (rstrip r) as [|a b] eqn:Hr.
  - rewrite (split_ws_eq c r), <- IH.
    destruct (is_space c) eqn:Hc; [done|].
    rewrite split_ws_eq, Hc. destruct r as [|c' r']; [done|].
    by destruct (is_space c').
  - destruct r as [|c' r']; [done|].
    rewrite (rstrip_head _ _ _ _ Hr) in *.
    by rewrite (split_ws_eq c (String c' b)), (split_ws_eq c (String c' r')), IH.
Qed.

Lemma split_ws_strip s : split_ws (strip s) = split_ws s.
Proof. unfold strip. by rewrite split_ws_rstrip, split_ws_lstrip. Qed.

(** The parser reads its input through the upper-cased tokens only: the
    letter case and the amount of white space between and around the tokens
    do not change the result. *)
Theorem parse_leg_string_reads_upper_tokens (s1 s2 : string) :
  split_ws (upper s1) = split_ws (upper s2) ->
  parse_leg_string s1 = parse_leg_string s2.
Proof.
  intros H. unfold parse_leg_string.
  by rewrite !upper_strip, !split_ws_strip, H.
Qed.

Lemma parse_leg_string_reads_upper_tokens_witness :
  parse_leg_string ("  +1   btc  26sep25" ++ nl ++ "95 p ")
  = parse_leg_string "+1 BTC 26SEP25 95 P".
Proof.
  apply parse_leg_string_reads_upper_tokens. vm_compute. reflexivity.
Defined.

(** Every accepted input has a quantity token followed by one, three or four
    instrument tokens; the leg is a sell exactly when the quantity token
    starts with [-]; its quantity is the integer read after the sign (or in
    the whole token when it has no sign), and is at least 1. *)
Theorem parsed_leg_sign_and_quantity (s : string) (leg : Leg) :
  parse_leg_string s = Some leg ->
  exists qty_str instrument_parts,
    split_ws (upper (strip s)) = qty_str :: instrument_parts
    /\ (length instrument_parts = 1 \/ length instrument_parts = 3
        \/ length instrument_parts = 4)%nat
    /\ side leg = (if startswith "-" qty_str then sell else buy)
    /\ int_of_str (if startswith "+" qty_str || startswith "-" qty_str
                   then tail qty_str else qty_str)
       = Some (quantity leg)
    /\ 1 <= quantity leg.
Proof.
  unfold parse_leg_string. intros H.
  destruct (split_ws (upper (strip s))) as [|q [|t toks]]; [done|done|].
  exists q, (t :: toks). split; [done|].
  destruct (join_instrument (t :: toks)) as [ins|] eqn:Hjoin; [|done].
  split.
  { destruct toks as [|t1 [|t2 [|t3 [|]]]]; simpl in Hjoin; try done; auto. }
  unfold fix_sign in H.
  destruct (startswith "+" q) eqn:Hplus; cbn [orb] in *.
  - rewrite Hplus in H.
    assert (Hminus : startswith "-" q = false).
    { destruct (startswith_inv _ _ Hplus) as [r ->]. reflexivity. }
    rewrite Hminus. repeat case_match; simplify_eq. repeat split; simpl; lia.
  - destruct (startswith "-" q) eqn:Hminus.
    + rewrite Hplus in H. repeat case_match; simplify_eq. repeat split; simpl; lia.
    + destruct (isdigit q && _); [|done].
      replace (startswith "+" ("+" ++ q)) with true in H
        by (symmetry; apply startswith_app).
      replace (tail ("+" ++ q)) with q in H by reflexivity.
      repeat case_match; simplify_eq. repeat split; simpl; lia.
Qed.

Lemma parsed_leg_sign_and_quantity_witness :
  exists qty_str instrument_parts,
    split_ws (upper (strip "-2 eth 27jun25 4000 c")) = qty_str :: instrument_parts
    /\ (length instrument_parts = 1 \/ length instrument_parts = 3
        \/ length instrument_parts = 4)%nat
    /\ sell = (if startswith "-" qty_str then sell else buy)
    /\ int_of_str (if startswith "+" qty_str || startswith "-" qty_str
                   then tail qty_str else qty_str)
       = Some 2
    /\ 1 <= 2.
Proof.
  apply (parsed_leg_sign_and_quantity "-2 eth 27jun25 4000 c"
           (mkLeg "ETH-27JUN25-4000-C" sell 2)).
  reflexivity.
Defined.

Lemma split_on_without_sep sep x :
  count_char sep x = O -> split_on sep x = [x].
Proof.
  induction x as [|c r IH]; simpl; [done|].
  destruct (Ascii.eqb c sep); [done|]. intros H. by rewrite (IH H).
Qed.

Lemma split_on_app sep x rest :
  count_char sep x = O ->
  split_on sep (x ++ String sep rest) = x :: split_on sep rest.
Proof.
  induction x as [|c r IH]; intros H.
  - change (EmptyString ++ String sep rest) with (String sep rest).
    simpl. by rewrite Ascii.eqb_refl.
  - change (String c r ++ String sep rest) with (String c (r ++ String sep rest)).
    simpl in *. destruct (Ascii.eqb c sep); [done|]. by rewrite (IH H).
Qed.

Lemma split_on_fields_without_sep sep s :
  Forall (fun field => count_char sep field = O) (split_on sep s).
Proof.
  induction s as [|c r IH]; simpl; [by repeat constructor|].
  destruct (Ascii.eqb c sep) eqn:Hc; [by constructor|].
  destruct (split_on sep r) as [|w ws].
  - repeat constructor. simpl. by rewrite Hc.
  - apply Forall_cons in IH as [Hw Hws]. constructor; [|done].
    simpl. by rewrite Hc.
Qed.

Lemma count_char_app c a b :
  count_char c (a ++ b) = (count_char c a + count_char c b)%nat.
Proof.
  induction a as [|x a IH]; [done|].
  change (String x a ++ b) with (String x (a ++ b)). simpl.
  destruct (Ascii.eqb x c); by rewrite IH.
Qed.

Lemma length_app a b :
  String.length (a ++ b) = (String.length a + String.length b)%nat.
Proof.
  induction a as [|x a IH]; [done|].
  change (String x a ++ b) with (String x (a ++ b)). simpl. by rewrite IH.
Qed.

Lemma all_digits_app a b : all_digits (a ++ b) = all_digits a && all_digits b.
Proof.
  induction a as [|x a IH]; [done|].
  change (String x a ++ b) with (String x (a ++ b)). simpl.
  by rewrite IH, andb_assoc.
Qed.

(** Expanding the strike twice is expanding it once. *)
Lemma expand_strike_idem ins : expand_strike (expand_strike ins) = expand_strike ins.
Proof.
  destruct (startswith "BTC-" ins) eqn:E.
  2: { assert (Hid : expand_strike ins = ins)
         by (by unfold expand_strike; rewrite E).
       by rewrite !Hid. }
  destruct (split_on "-" ins) as [|p0 [|p1 [|k [|p3 [|]]]]] eqn:Hs;
    try (assert (Hid : expand_strike ins = ins)
           by (by unfold expand_strike; rewrite E, Hs);
         by rewrite !Hid).
  destruct (isdigit k && (String.length k <=? 3)%nat) eqn:Hc.
  2: { assert (Hid : expand_strike ins = ins)
         by (by unfold expand_strike; rewrite E, Hs, Hc).
       by rewrite !Hid. }
  assert (Hexp : expand_strike ins = join "-" [p0; p1; k ++ "000"; p3])
    by (by unfold expand_strike; rewrite E, Hs, Hc).
  rewrite Hexp.
  pose proof (split_on_fields_without_sep "-" ins) as HF. rewrite Hs in HF.
  apply Forall_cons in HF as [H0 HF]. apply Forall_cons in HF as [H1 HF].
  apply Forall_cons in HF as [H2 HF]. apply Forall_cons in HF as [H3 _].
  destruct (startswith_inv _ _ E) as [r Hr]. rewrite Hr, split_on_BTC in Hs.
  injection Hs as <- Hs.
  apply andb_prop in Hc as [Hk _].
  assert (Hlen : (1 <= String.length k)%nat) by (destruct k; [done|simpl; lia]).
  assert (H2' : count_char "-" (k ++ "000") = O) by (by rewrite count_char_app, H2).
  replace (join "-" ["BTC"; p1; k ++ "000"; p3])
    with ("BTC" ++ String "-" (p1 ++ String "-" ((k ++ "000") ++ String "-" p3)))
    by reflexivity.
  unfold expand_strike.
  rewrite (split_on_app "-" "BTC") by done.
  rewrite (split_on_app "-" p1) by done.
  rewrite (split_on_app "-" (k ++ "000")) by done.
  rewrite (split_on_without_sep "-" p3) by done.
  replace (startswith "BTC-" ("BTC" ++ String "-" (p1 ++ String "-" ((k ++ "000") ++ String "-" p3))))
    with true by (symmetry; apply (startswith_app "BTC-")).
  rewrite length_app.
  destruct (Nat.leb_spec (String.length k + String.length "000") 3) as [Hle|_];
    [simpl in Hle; lia|].
  by rewrite andb_false_r.
Qed.

Lemma default_currency_known ins :
  known_currency ins = true -> default_currency ins = ins.
Proof. intros H. unfold default_currency. by rewrite H. Qed.

(** Normalising an instrument that is already normalised changes nothing. *)
Lemma normalise_idem ins :
  expand_strike (default_currency (expand_strike (default_currency ins)))
  = expand_strike (default_currency ins).
Proof.
  rewrite (default_currency_known (expand_strike (default_currency ins))).
  - apply expand_strike_idem.
  - apply known_currency_expand, known_currency_default.
Qed.

Lemma parse_leg_string_tokens s leg :
  parse_leg_string s = Some leg ->
  exists qty_str instrument_parts ins,
    split_ws (upper (strip s)) = qty_str :: instrument_parts
    /\ join_instrument instrument_parts = Some ins
    /\ instrument leg = upper (expand_strike (default_currency ins)).
Proof.
  unfold parse_leg_string. intros H.
  destruct (split_ws (upper (strip s))) as [|q [|t toks]]; [done|done|].
  destruct (join_instrument (t :: toks)) as [ins|] eqn:Hjoin; [|done].
  exists q, (t :: toks), ins. repeat split; [done|].
  repeat case_match; by simplify_eq.
Qed.

(** The instrument of a returned leg is in normal form: an input that names
    it as its single instrument token is given the same instrument back. *)
Theorem canonical_instrument_is_stable
    (s : string) (leg : Leg) (s' qty_str' : string) (leg' : Leg) :
  parse_leg_string s = Some leg ->
  split_ws (upper (strip s')) = [qty_str'; instrument leg] ->
  parse_leg_string s' = Some leg' ->
  instrument leg' = instrument leg.
Proof.
  intros H Htok' H'.
  destruct (parse_leg_string_tokens _ _ H) as (q & toks & ins & Htok & Hjoin & Hins).
  assert (Hup : Forall uppercase (q :: toks)).
  { rewrite <- Htok. apply uppercase_split_ws, uppercase_upper. }
  apply Forall_cons in Hup as [_ Hup].
  pose proof (uppercase_expand _ (uppercase_default _
                (uppercase_join_instrument _ _ Hup Hjoin))) as Hnorm.
  rewrite Hnorm in Hins.
  destruct (parse_leg_string_tokens _ _ H') as (q' & toks' & ins' & Htok2 & Hjoin' & ->).
  rewrite Htok' in Htok2. injection Htok2 as <- <-.
  simpl in Hjoin'. injection Hjoin' as <-.
  by rewrite Hins, normalise_idem.
Qed.

Lemma canonical_instrument_is_stable_witness :
  instrument (mkLeg "BTC-26SEP25-95000-P" sell 3) = "BTC-26SEP25-95000-P".
Proof.
  apply (canonical_instrument_is_stable "+1 26sep25 95 p"
           (mkLeg "BTC-26SEP25-95000-P" buy 1)
           "-3 btc-26sep25-95000-p" "-3"
           (mkLeg "BTC-26SEP25-95000-P" sell 3)).
  - vm_compute. reflexivity.
  - vm_compute. reflexivity.
  - vm_compute. reflexivity.
Defined.

(** The examples of the docstring of [parse_leg_string]. *)
Lemma parse_docstring_examples :
  parse_leg_string "+1 BTC-26SEP25-80000-P" = Some (mkLeg "BTC-26SEP25-80000-P" buy 1)
  /\ parse_leg_string "-2 ETH-27JUN25-4000-C" = Some (mkLeg "ETH-27JUN25-4000-C" sell 2)
  /\ parse_leg_string "+1 26SEP25-95000-P" = Some (mkLeg "BTC-26SEP25-95000-P" buy 1)
  /\ parse_leg_string "+1 26SEP25-95-P" = Some (mkLeg "BTC-26SEP25-95000-P" buy 1)
  /\ parse_leg_string "1 26SEP25-95000-P" = Some (mkLeg "BTC-26SEP25-95000-P" buy 1).
Proof. repeat split; vm_compute; reflexivity. Qed.

(** The net combo mark is all or nothing: as soon as one leg resolves no mark
    price (the last fetch of its instrument returned none), the report ends
    with the line saying that the net is not available, whatever the other
    legs resolve, legs that repeat an instrument included. *)
Theorem no_net_when_a_leg_is_unresolved
    (net : network) (inputs : list string) (first : Leg) (rest : list Leg)
    (leg : Leg) :
  parses_to inputs (first :: rest) ->
  same_underlying first rest ->
  forallb fits (first :: rest) = true ->
  In leg (first :: rest) ->
  resolved_mark (gather net O (first :: rest)) leg = None ->
  exists details,
    length details = length (first :: rest)
    /\ (mark_px net inputs).2
       = returned (report details
                     "  Net Combo Mark: N/A (Could not fetch price for all legs)").
Proof.
  intros Hparse Hcur Hfits Hin Hnone.
  rewrite (mark_px_run net inputs (first :: rest) (underlying first));
    [|done|done|by constructor].
  destruct (accumulate_fits (resolved_mark (gather net O (first :: rest)))
              _ Hfits 0%float) as [total ->].
  assert (Hnot : forallb (is_priced (resolved_mark (gather net O (first :: rest))))
                   (first :: rest) = false).
  { apply not_true_is_false. intros Hall. rewrite forallb_forall in Hall.
    specialize (Hall leg Hin). unfold is_priced in Hall. by rewrite Hnone in Hall. }
  rewrite Hnot. eexists. split; [|done]. by rewrite length_map.
Qed.

Lemma no_net_when_a_leg_is_unresolved_witness :
  exists details,
    length details = 3%nat
    /\ (mark_px (fun i _ => match i with
                            | 2%nat => request_failed
                            | _ => ticker (Some 0.10%float) (Some 60000%float)
                            end)
          ["+1 BTC-26SEP25-95000-P"; "-1 BTC-26SEP25-90000-P";
           "+2 BTC-26SEP25-95000-P"]).2
       = returned (report details
                     "  Net Combo Mark: N/A (Could not fetch price for all legs)").
Proof.
  apply (no_net_when_a_leg_is_unresolved _
           ["+1 BTC-26SEP25-95000-P"; "-1 BTC-26SEP25-90000-P";
            "+2 BTC-26SEP25-95000-P"]
           (mkLeg "BTC-26SEP25-95000-P" buy 1)
           [mkLeg "BTC-26SEP25-90000-P" sell 1; mkLeg "BTC-26SEP25-95000-P" buy 2]
           (mkLeg "BTC-26SEP25-95000-P" buy 1)).
  - repeat constructor.
  - repeat constructor.
  - vm_compute. reflexivity.
  - by left.
  - vm_compute. reflexivity.
Defined.

(** ** Properties of the caller, [price_get_legs] *)

Lemma filter_all_blank (lines : list string) :
  Forall (fun line => strip line = EmptyString) lines ->
  List.filter (fun line => nonempty (strip line)) lines = [].
Proof.
  induction 1 as [|line lines Hline _ IH]; simpl; [done|]. by rewrite Hline.
Qed.

(** A message whose lines are all blank is answered with the prompt to try
    again: nothing is parsed, nothing is fetched, and the conversation stays
    in the state that waits for the legs. *)
Theorem price_get_legs_blank_message (net : network) (user_input : string) :
  Forall (fun line => strip line = EmptyString)
    (split_on (ascii_of_nat 10) user_input) ->
  price_get_legs net user_input
  = mkHandled [] ["You didn't provide any legs. Please try again or use /cancel."]
      (Some GETTING_LEGS).
Proof.
  intros H. unfold price_get_legs, strategy_lines.
  by rewrite (filter_all_blank _ H).
Qed.

Lemma price_get_legs_blank_message_witness :
  price_get_legs (fun _ _ => request_failed) ("   " ++ nl ++ nl ++ " ")
  = mkHandled [] ["You didn't provide any legs. Please try again or use /cancel."]
      (Some GETTING_LEGS).
Proof.
  apply price_get_legs_blank_message. vm_compute. repeat constructor.
Defined.

Lemma report_starts_with_header details last_line :
  exists rest, report details last_line = "Combo Mark Price per unit" ++ rest.
Proof.
  unfold report, join, header. destruct details; by eexists.
Qed.

Lemma parse_legs_nonempty s inputs calls :
  parse_legs (s :: inputs) <> (calls, inr []).
Proof.
  simpl. destruct (parse_leg_string s); [|done].
  by destruct (parse_legs inputs) as [calls' [bad|legs]].
Qed.

(** The error message for an empty list of legs is never sent to the user:
    the caller only calls [mark_px] on a list that is not empty, and no other
    text [mark_px] returns is that message. *)
Theorem price_get_legs_never_reports_no_legs (net : network) (user_input : string) :
  ~ In "Error: No valid strategy legs provided."
      (replies (price_get_legs net user_input)).
Proof.
  unfold price_get_legs.
  destruct (strategy_lines user_input) as [|line lines]; [by intros [H|[]]|].
  destruct (mark_px net (line :: lines)) as [calls [text|]] eqn:Hm;
    [|by intros [H|[]]].
  intros [H|[H|[]]]; [done|]. subst text.
  unfold mark_px in Hm.
  destruct (parse_legs (line :: lines)) as [calls' [bad|legs]] eqn:Hp.
  - injection Hm as _ Hm. vm_compute in Hm. discriminate Hm.
  - destruct legs as [|leg0 legs]; [by apply parse_legs_nonempty in Hp|].
    destruct (check_underlying None (leg0 :: legs)) as [[c1 c2]|cur].
    + injection Hm as _ Hm. vm_compute in Hm. discriminate Hm.
    + cbv zeta in Hm.
      destruct (collect _ _ _ _) as [pm idx].
      destruct (price_legs _ _ _ _ _) as [[[total details] [|]]|]; [| |done];
        injection Hm as _ Hm;
        destruct (report_starts_with_header details
                    (net_line total cur idx)) as [r1 Hr1];
        destruct (report_starts_with_header details net_unavailable) as [r2 Hr2];
        rewrite ?Hr1, ?Hr2 in Hm; discriminate Hm.
Qed.
